(** * f1-driver-rater: rating store, head-to-head engine and remote data client

    Shallow embedding of [src/utils/storage.ts], of [calculateH2H] and
    [cycleDriver] in [src/components/TeammateWars.tsx] and of the cached,
    paginated fetches of [src/api/f1Api.ts].

    Modelling conventions:
    - JavaScript numbers are exact rationals [Q]; [toFixed(2)] followed by
      [parseFloat] is rounding of the exact value to two decimals, ties
      upwards (the rule [toFixed] applies to the value it is given).
    - [localStorage] holds one JSON document per key; its two rating keys
      ([f1_pilot_ratings] and [f1_quick_ratings]) are kept as two already
      parsed maps from season to value.  Storage failures are not modelled
      (every [setItem] succeeds). *)

From Stdlib Require Import QArith Qround ZArith Ascii String List Bool Sorted.
From stdpp Require Import base gmap strings list pretty.

Import ListNotations.

(* ================================================================= *)
(** ** Data model ([src/types/index.ts]) *)

Record DriverRating := mkDriverRating {
  driverId : string;
  driverName : string;
  constructorId : string;
  constructorName : string;
  rating : Q
}.

Record RaceRatings := mkRaceRatings {
  round : string;
  raceName : string;
  date : string;
  ratings : list DriverRating;
  completed : bool
}.

Record SeasonRatings := mkSeasonRatings {
  season : string;
  races : list RaceRatings
}.

Module AverageRating.
Record t := mk {
    driverId : string;
    driverName : string;
    constructorId : string;
    constructorName : string;
    averageRating : Q;
    totalRaces : nat;
    ratings : list Q
  }.
End AverageRating.

(** The two rating keys of [localStorage]: [STORAGE_KEY] maps a season to
    its [SeasonRatings], [QUICK_RATINGS_KEY] maps a season to its quick
    ratings. *)
Record Store := mkStore {
  allRatings : gmap string SeasonRatings;
  allQuickRatings : gmap string (list DriverRating)
}.

(* ================================================================= *)
(** ** Rating store ([src/utils/storage.ts]) *)

Definition getSeasonRatings (st : Store) (s : string) : option SeasonRatings :=
  allRatings st !! s.

Definition getQuickRatings (st : Store) (s : string) : option (list DriverRating) :=
  allQuickRatings st !! s.

(** [Array.prototype.findIndex]; [None] stands for [-1]. *)
Fixpoint findIndex {A} (p : A -> bool) (l : list A) : option nat :=
  match l with
  | [] => None
  | x :: l' => if p x then Some 0 else S <$> findIndex p l'
  end.

Definition saveRaceRatings (s rnd name dt : string) (rs : list DriverRating)
    (st : Store) : Store :=
  let sr := match allRatings st !! s with
            | Some sr => sr
            | None => mkSeasonRatings s []
            end in
  let raceRatings := mkRaceRatings rnd name dt rs true in
  let races' := match findIndex (fun r => String.eqb (round r) rnd) (races sr) with
                | Some i => <[i := raceRatings]> (races sr)
                | None => races sr ++ [raceRatings]
                end in
  mkStore (<[s := mkSeasonRatings (season sr) races']> (allRatings st))
          (allQuickRatings st).

Definition saveQuickRatings (s : string) (rs : list DriverRating) (st : Store) : Store :=
  mkStore (allRatings st) (<[s := rs]> (allQuickRatings st)).

Definition clearSeasonRatings (s : string) (st : Store) : Store :=
  mkStore (delete s (allRatings st)) (delete s (allQuickRatings st)).

(** *** Readers of the store *)

(** [races.find(r => r.round === round) || null] *)
Definition getRaceRatings (st : Store) (s rnd : string) : option RaceRatings :=
  match getSeasonRatings st s with
  | Some sr => List.find (fun r => String.eqb (round r) rnd) (races sr)
  | None => None
  end.

(** [raceRatings?.completed || false] *)
Definition isRaceRated (st : Store) (s rnd : string) : bool :=
  match getRaceRatings st s rnd with Some r => completed r | None => false end.

(** The number of completed race entries of the season, 0 without one. *)
Definition getRatedRacesCount (st : Store) (s : string) : nat :=
  match getSeasonRatings st s with
  | Some sr => length (List.filter completed (races sr))
  | None => 0
  end.

(** [localStorage.removeItem(STORAGE_KEY)]: the quick ratings stay. *)
Definition clearAllRatings (st : Store) : Store := mkStore ∅ (allQuickRatings st).

(** [ratings !== null && ratings.length > 0] *)
Definition hasQuickRatings (st : Store) (s : string) : bool :=
  match getQuickRatings st s with Some q => Nat.ltb 0 (length q) | None => false end.

(** *** [calculateAverages] *)

(** [`${rating.driverId}_${rating.constructorId}`] *)
Definition compositeKey (r : DriverRating) : string :=
  String.append (driverId r) (String.append "_" (constructorId r)).

(** A JavaScript [Map] with string keys, in insertion order. *)
Fixpoint map_has {V} (k : string) (m : list (string * V)) : bool :=
  match m with
  | [] => false
  | (k', _) :: m' => String.eqb k k' || map_has k m'
  end.

Fixpoint map_modify {V} (k : string) (f : V -> V) (m : list (string * V))
    : list (string * V) :=
  match m with
  | [] => []
  | (k', v) :: m' =>
      if String.eqb k k' then (k', f v) :: m' else (k', v) :: map_modify k f m'
  end.

Definition newEntry (r : DriverRating) : AverageRating.t :=
  AverageRating.mk (driverId r) (driverName r) (constructorId r)
    (constructorName r) 0 0 [].

(** [driverEntry.ratings.push(rating.rating); driverEntry.totalRaces++] *)
Definition pushRating (x : Q) (e : AverageRating.t) : AverageRating.t :=
  AverageRating.mk (AverageRating.driverId e) (AverageRating.driverName e)
    (AverageRating.constructorId e) (AverageRating.constructorName e)
    (AverageRating.averageRating e) (S (AverageRating.totalRaces e))
    (AverageRating.ratings e ++ [x]).

Definition addRating (m : list (string * AverageRating.t)) (r : DriverRating)
    : list (string * AverageRating.t) :=
  let k := compositeKey r in
  let m1 := if map_has k m then m else m ++ [(k, newEntry r)] in
  map_modify k (pushRating (rating r)) m1.

Definition addRace (m : list (string * AverageRating.t)) (race : RaceRatings)
    : list (string * AverageRating.t) :=
  if completed race then fold_left addRating (ratings race) m else m.

Definition driverTeamMap (rs : list RaceRatings) : list (string * AverageRating.t) :=
  fold_left addRace rs [].

(** [parseFloat(x.toFixed(2))] on the exact value [x]. *)
Definition round2 (x : Q) : Q :=
  Qred (inject_Z (Qfloor (x * 100 + (1 # 2))) / 100)%Q.

Definition sumQ (l : list Q) : Q := fold_left Qplus l 0%Q.

Definition finalize (e : AverageRating.t) : AverageRating.t :=
  AverageRating.mk (AverageRating.driverId e) (AverageRating.driverName e)
    (AverageRating.constructorId e) (AverageRating.constructorName e)
    (round2 (sumQ (AverageRating.ratings e)
             / inject_Z (Z.of_nat (length (AverageRating.ratings e)))))
    (AverageRating.totalRaces e) (AverageRating.ratings e).

(** [results.sort((a, b) => b.averageRating - a.averageRating)]: the sort
    is stable, so it is the insertion sort below. *)
Fixpoint insertDesc (x : AverageRating.t) (l : list AverageRating.t)
    : list AverageRating.t :=
  match l with
  | [] => [x]
  | y :: l' =>
      if Qle_bool (AverageRating.averageRating x) (AverageRating.averageRating y)
      then y :: insertDesc x l'
      else x :: y :: l'
  end.

Definition sortDesc (l : list AverageRating.t) : list AverageRating.t :=
  fold_left (fun acc x => insertDesc x acc) l [].

Definition fromQuick (r : DriverRating) : AverageRating.t :=
  AverageRating.mk (driverId r) (driverName r) (constructorId r)
    (constructorName r) (rating r) 1 [rating r].

Definition calculateAverages (st : Store) (s : string) : list AverageRating.t :=
  let quickPath :=
    match getQuickRatings st s with
    | Some q => if Nat.ltb 0 (length q) then sortDesc (map fromQuick q) else []
    | None => []
    end in
  match getSeasonRatings st s with
  | Some sr =>
      if Nat.ltb 0 (length (races sr))
      then sortDesc (map (fun kv => finalize (snd kv)) (driverTeamMap (races sr)))
      else quickPath
  | None => quickPath
  end.

(** *** Export and import *)

(** The export document [{ version, exportDate, season, raceRatings,
    quickRatings }].  Each field is optional as in a parsed JSON document
    ([None] is a missing field or [null]); the fields that are present have
    the types [exportRatings] writes. *)
Record ExportDoc := mkExportDoc {
  doc_version : option Z;
  doc_exportDate : option string;
  doc_season : option string;
  doc_raceRatings : option SeasonRatings;
  doc_quickRatings : option (list DriverRating)
}.

(** The JSON text layer: [JSON.stringify] and [JSON.parse] over a type of
    texts.  [json_parse] returns [None] where [JSON.parse] throws. *)
Class JsonCodec (Text : Type) := {
  json_stringify : ExportDoc -> Text;
  json_parse : Text -> option ExportDoc
}.

Definition json_roundtrip {Text} (C : JsonCodec Text) : Prop :=
  forall d, json_parse (json_stringify d) = Some d.

Module ImportResult.
Record t := mk {
    success : bool;
    message : string;
    season : option string;
    racesImported : option nat
  }.
End ImportResult.

Definition exportRatings {Text} `{JsonCodec Text} (st : Store) (s now : string) : Text :=
  json_stringify (mkExportDoc (Some 1%Z) (Some now) (Some s)
                              (getSeasonRatings st s) (getQuickRatings st s)).

(** JavaScript truthiness of [data.season]. *)
Definition truthy_string (o : option string) : option string :=
  match o with
  | Some s => if String.eqb s "" then None else Some s
  | None => None
  end.

(** [allRatings[season] = data.raceRatings] and the quick-ratings write
    below are modelled as map insertions, which is what JavaScript does for
    every season key except ["__proto__"]: there the assignment replaces
    the prototype of the object and stores no entry. *)
Definition importRatings {Text} `{JsonCodec Text} (jsonString : Text) (st : Store)
    : ImportResult.t * Store :=
  match json_parse jsonString with
  | None => (ImportResult.mk false "Invalid JSON file format" None None, st)
  | Some data =>
      match truthy_string (doc_season data) with
      | None => (ImportResult.mk false "Invalid file: missing season" None None, st)
      | Some s =>
          let '(racesImported, st1) :=
            match doc_raceRatings data with
            | Some rr => (length (races rr),
                          mkStore (<[s := rr]> (allRatings st)) (allQuickRatings st))
            | None => (0, st)
            end in
          let st2 :=
            match doc_quickRatings data with
            | Some q => if Nat.ltb 0 (length q) then saveQuickRatings s q st1 else st1
            | None => st1
            end in
          (ImportResult.mk true
             (String.append "Successfully imported "
               (String.append (pretty (N.of_nat racesImported))
                 (String.append " races for " s)))
             (Some s) (Some racesImported), st2)
      end
  end.

(** A codec whose texts are the parsed documents themselves ([None] is a
    text that is not JSON). *)
#[local] Instance parsed_codec : JsonCodec (option ExportDoc) := {|
  json_stringify := Some;
  json_parse := fun t => t
|}.

(* ================================================================= *)
(** ** Sample data *)

Definition dr (d c : string) (x : Q) : DriverRating := mkDriverRating d d c c x.

Definition store_of (rs : list (string * SeasonRatings))
    (qs : list (string * list DriverRating)) : Store :=
  mkStore (list_to_map rs) (list_to_map qs).

(** Two ratings in one completed race whose composite keys coincide:
    ["max_verstappen" ++ "_" ++ "red_bull"] is
    ["max" ++ "_" ++ "verstappen_red_bull"]. *)
Definition collision_store : Store :=
  store_of [("2024", mkSeasonRatings "2024"
              [mkRaceRatings "1" "Bahrain Grand Prix" "2024-03-02"
                 [dr "max_verstappen" "red_bull" 8; dr "max" "verstappen_red_bull" 10]
                 true])] [].

(** A season whose only race entry is not completed, with quick ratings. *)
Definition uncompleted_store : Store :=
  store_of [("2024", mkSeasonRatings "2024"
              [mkRaceRatings "1" "Bahrain Grand Prix" "2024-03-02"
                 [dr "max_verstappen" "red_bull" 8] false])]
           [("2024", [dr "max_verstappen" "red_bull" 7])].

Definition two_seasons_store : Store :=
  store_of [("2023", mkSeasonRatings "2023"
              [mkRaceRatings "1" "Bahrain Grand Prix" "2023-03-05"
                 [dr "max_verstappen" "red_bull" 9] true]);
            ("2024", mkSeasonRatings "2024"
              [mkRaceRatings "1" "Bahrain Grand Prix" "2024-03-02"
                 [dr "max_verstappen" "red_bull" 8] true])]
           [("2023", [dr "max_verstappen" "red_bull" 7]);
            ("2024", [dr "max_verstappen" "red_bull" 6])].

(* ================================================================= *)
(** ** C10: at most one race entry per round *)

(** Every stored season lists each round at most once. *)
Definition rounds_unique (st : Store) : Prop :=
  forall s sr, allRatings st !! s = Some sr -> NoDup (map round (races sr)).

(** An import document whose race list has round "1" twice. *)
Definition duplicate_rounds_doc : ExportDoc :=
  mkExportDoc (Some 1%Z) None (Some "2024")
    (Some (mkSeasonRatings "2024"
       [mkRaceRatings "1" "Bahrain Grand Prix" "2024-03-02"
          [dr "max_verstappen" "red_bull" 8] true;
        mkRaceRatings "1" "Bahrain Grand Prix" "2024-03-02"
          [dr "max_verstappen" "red_bull" 9] true]))
    None.

(* ================================================================= *)
(** ** Head-to-head engine ([calculateH2H] in [TeammateWars.tsx]) *)

(** [SeasonRaceResult] of [f1Api.ts]; [position = None] is [null]
    (retired, disqualified, excluded, withdrew, failed to qualify or not
    classified). *)
Module SeasonRaceResult.
Record t := mk {
    round : string;
    driverId : string;
    constructorId : string;
    position : option Z;
    status : string
  }.
End SeasonRaceResult.

Module SeasonQualifyingResult.
Record t := mk {
    round : string;
    driverId : string;
    constructorId : string;
    position : Z
  }.
End SeasonQualifyingResult.

Record H2HStats := mkH2HStats {
  raceWinsA : nat;
  raceWinsB : nat;
  qualiWinsA : nat;
  qualiWinsB : nat;
  totalRaces : nat;
  totalQualis : nat
}.

Section H2H.

(** The component state [calculateH2H] closes over. *)
Variable raceResults : list SeasonRaceResult.t.
Variable qualiResults : list SeasonQualifyingResult.t.

(** [Set.prototype.add] on a set kept in insertion order. *)
Definition setAdd (x : string) (l : list string) : list string :=
  if existsb (String.eqb x) l then l else l ++ [x].

Definition roundsOf (driverAId driverBId cId : string) : list string :=
  fold_left
    (fun acc r =>
       if String.eqb (SeasonRaceResult.constructorId r) cId &&
          (String.eqb (SeasonRaceResult.driverId r) driverAId ||
           String.eqb (SeasonRaceResult.driverId r) driverBId)
       then setAdd (SeasonRaceResult.round r) acc else acc)
    raceResults [].

Definition findRace (rd d cId : string) : option SeasonRaceResult.t :=
  find (fun r => String.eqb (SeasonRaceResult.round r) rd &&
                 String.eqb (SeasonRaceResult.driverId r) d &&
                 String.eqb (SeasonRaceResult.constructorId r) cId) raceResults.

Definition findQuali (rd d cId : string) : option SeasonQualifyingResult.t :=
  find (fun q => String.eqb (SeasonQualifyingResult.round q) rd &&
                 String.eqb (SeasonQualifyingResult.driverId q) d &&
                 String.eqb (SeasonQualifyingResult.constructorId q) cId) qualiResults.

(** [raceA?.position] as a condition: the position when it is a truthy
    number (non-null and non-zero). *)
Definition finishedPos (o : option SeasonRaceResult.t) : option Z :=
  match o with
  | Some r =>
      match SeasonRaceResult.position r with
      | Some p => if Z.eqb p 0 then None else Some p
      | None => None
      end
  | None => None
  end.

Definition h2hRound (driverAId driverBId cId : string) (s : H2HStats) (rd : string)
    : H2HStats :=
  let s1 :=
    match finishedPos (findRace rd driverAId cId),
          finishedPos (findRace rd driverBId cId) with
    | Some pa, Some pb =>
        mkH2HStats
          (if Z.ltb pa pb then S (raceWinsA s) else raceWinsA s)
          (if Z.ltb pa pb then raceWinsB s
           else if Z.ltb pb pa then S (raceWinsB s) else raceWinsB s)
          (qualiWinsA s) (qualiWinsB s) (S (totalRaces s)) (totalQualis s)
    | _, _ => s
    end in
  match findQuali rd driverAId cId, findQuali rd driverBId cId with
  | Some qa, Some qb =>
      let pa := SeasonQualifyingResult.position qa in
      let pb := SeasonQualifyingResult.position qb in
      mkH2HStats (raceWinsA s1) (raceWinsB s1)
        (if Z.ltb pa pb then S (qualiWinsA s1) else qualiWinsA s1)
        (if Z.ltb pa pb then qualiWinsB s1
         else if Z.ltb pb pa then S (qualiWinsB s1) else qualiWinsB s1)
        (totalRaces s1) (S (totalQualis s1))
  | _, _ => s1
  end.

Definition calculateH2H (driverAId driverBId cId : string) : H2HStats :=
  fold_left (h2hRound driverAId driverBId cId) (roundsOf driverAId driverBId cId)
    (mkH2HStats 0 0 0 0 0 0).

End H2H.

Definition rr (rd d c : string) (p : option Z) : SeasonRaceResult.t :=
  SeasonRaceResult.mk rd d c p "".
Definition qr (rd d c : string) (p : Z) : SeasonQualifyingResult.t :=
  SeasonQualifyingResult.mk rd d c p.

(** The per-round conditions of the head-to-head tallies. *)
Section H2HConditions.
Variable raceResults : list SeasonRaceResult.t.
Variable qualiResults : list SeasonQualifyingResult.t.
Variables driverAId driverBId cId : string.

Definition count (p : string -> bool) (l : list string) : nat := length (List.filter p l).

Definition racePair (rd : string) : option (Z * Z) :=
  match finishedPos (findRace raceResults rd driverAId cId),
        finishedPos (findRace raceResults rd driverBId cId) with
  | Some pa, Some pb => Some (pa, pb)
  | _, _ => None
  end.

Definition qualiPair (rd : string) : option (Z * Z) :=
  match findQuali qualiResults rd driverAId cId, findQuali qualiResults rd driverBId cId with
  | Some qa, Some qb =>
      Some (SeasonQualifyingResult.position qa, SeasonQualifyingResult.position qb)
  | _, _ => None
  end.

Definition pairCounted (o : option (Z * Z)) : bool :=
  match o with Some _ => true | None => false end.
Definition pairWonByA (o : option (Z * Z)) : bool :=
  match o with Some (pa, pb) => Z.ltb pa pb | None => false end.
Definition pairWonByB (o : option (Z * Z)) : bool :=
  match o with Some (pa, pb) => Z.ltb pb pa | None => false end.

End H2HConditions.

Definition h2h_race_results : list SeasonRaceResult.t :=
  [rr "1" "ver" "red_bull" (Some 1%Z); rr "1" "per" "red_bull" (Some 4%Z)].

(** Qualifying of rounds 1 and 2 is known, the race of round 2 is not yet
    in the results. *)
Definition h2h_quali_results : list SeasonQualifyingResult.t :=
  [qr "1" "ver" "red_bull" 1; qr "1" "per" "red_bull" 2;
   qr "2" "ver" "red_bull" 3; qr "2" "per" "red_bull" 1].

(* ================================================================= *)
(** ** [cycleDriver] ([src/components/TeammateWars.tsx]) *)

(** ** [cycleDriver] ([src/components/TeammateWars.tsx]) *)

(** A JavaScript number that is an integer or [NaN] ([None]). *)
Definition JsInt := option Z.

(** [a % n]: the remainder takes the sign of [a]; [NaN] when [n = 0]. *)
Definition jsRem (a : JsInt) (n : Z) : JsInt :=
  match a with
  | Some x => if Z.eqb n 0 then None else Some (Z.rem x n)
  | None => None
  end.

Definition jsAdd1 (a : JsInt) : JsInt := option_map (fun x => (x + 1)%Z) a.

(** [===] on numbers: [NaN] equals nothing. *)
Definition jsEq (a b : JsInt) : bool :=
  match a, b with Some x, Some y => Z.eqb x y | _, _ => false end.

Inductive Slot := Slot0 | Slot1.

(** [prev[teamId] || [0, 1]] *)
Definition selection (prev : gmap string (JsInt * JsInt)) (teamId : string) : JsInt * JsInt :=
  match prev !! teamId with Some c => c | None => (Some 0%Z, Some 1%Z) end.

Definition cycleDriver (prev : gmap string (JsInt * JsInt)) (teamId : string) (slot : Slot)
    (totalDrivers : Z) : gmap string (JsInt * JsInt) :=
  let current := selection prev teamId in
  let otherIndex := match slot with Slot0 => snd current | Slot1 => fst current end in
  let cur := match slot with Slot0 => fst current | Slot1 => snd current end in
  let nextIndex := jsRem (jsAdd1 cur) totalDrivers in
  let nextIndex := if jsEq nextIndex otherIndex
                   then jsRem (jsAdd1 nextIndex) totalDrivers else nextIndex in
  let newSelection := match slot with
                      | Slot0 => (nextIndex, snd current)
                      | Slot1 => (fst current, nextIndex)
                      end in
  <[teamId := newSelection]> prev.

Definition validSelection (n : Z) (c : JsInt * JsInt) : Prop :=
  exists a b, c = (Some a, Some b) /\ (0 <= a < n)%Z /\ (0 <= b < n)%Z /\ a <> b.

(* ================================================================= *)
(** ** Remote data client ([src/api/f1Api.ts], the cached version) *)

Module ConstructorStanding.
Record t := mk {
    constructorId : string;
    constructorName : string;
    position : Z;
    points : Q;
    wins : Z
  }.
End ConstructorStanding.

(** A constructor-standings row as the provider sends it; the numeric
    fields are given after [parseInt]/[parseFloat] ([None] is [NaN]). *)
Module RawStanding.
Record t := mk {
    constructorId : option string;
    name : option string;
    position : option Z;
    points : option Q;
    wins : option Z
  }.
End RawStanding.

(** [api.get(url)]: a paginated request stands for
    [`${endpoint}?limit=${limit}&offset=${offset}`]. *)
Inductive Request :=
  | PageRequest (endpoint : string) (limit offset : Z)
  | PlainRequest (endpoint : string).

Inductive Exn :=
  | AxiosError (status : option Z)
  | RateLimitError
  | OutOfFuel.  (** the loop was still running when the fuel ran out *)

Inductive Outcome (A : Type) := Ret (x : A) | Throw (e : Exn).
Arguments Ret {A} x.
Arguments Throw {A} e.

(** [parseInt(s, 10)]; [None] is [NaN]. *)
Definition digitOf (c : ascii) : option Z :=
  let n := nat_of_ascii c in
  if Nat.leb 48 n && Nat.leb n 57 then Some (Z.of_nat (n - 48)) else None.

Fixpoint digitsPrefix (s : string) (acc : option Z) : option Z :=
  match s with
  | EmptyString => acc
  | String c s' =>
      match digitOf c with
      | Some d => digitsPrefix s' (Some (10 * default 0 acc + d)%Z)
      | None => acc
      end
  end.

Fixpoint trimStart (s : string) : string :=
  match s with
  | String c s' =>
      if Ascii.eqb c " " || Ascii.eqb c "009" || Ascii.eqb c "010" || Ascii.eqb c "013"
      then trimStart s' else s
  | EmptyString => s
  end.

Definition parseInt (s : string) : option Z :=
  match trimStart s with
  | String "-" s' => Z.opp <$> digitsPrefix s' None
  | String "+" s' => digitsPrefix s' None
  | s' => digitsPrefix s' None
  end.

Definition getSeasonCacheTtlMs (currentYear : Z) (season : string) : Z :=
  match parseInt season with
  | None => 10 * 60 * 1000
  | Some seasonNum =>
      if Z.geb seasonNum currentYear then 2 * 60 * 1000 else 24 * 60 * 60 * 1000
  end.

Definition isDigit (c : ascii) : bool := match digitOf c with Some _ => true | None => false end.

(** [endpoint.match(/^\/(\d{4})\//)?.[1] ?? null] *)
Definition getEndpointSeason (endpoint : string) : option string :=
  match endpoint with
  | String "/" (String d1 (String d2 (String d3 (String d4 (String "/" _))))) =>
      if isDigit d1 && isDigit d2 && isDigit d3 && isDigit d4
      then Some (String d1 (String d2 (String d3 (String d4 EmptyString))))
      else None
  | _ => None
  end.

Definition normalizeStanding (s : RawStanding.t) : ConstructorStanding.t :=
  ConstructorStanding.mk
    (default "unknown" (RawStanding.constructorId s))
    (default "Unknown" (RawStanding.name s))
    (match RawStanding.position s with Some p => p | None => 0 end)
    (match RawStanding.points s with Some p => p | None => 0 end)
    (match RawStanding.wins s with Some w => w | None => 0 end).

Section Client.

(** A record of a paginated collection (a race with its results or its
    qualifying results), as the client passes it through unchanged. *)
Variable Rec : Type.

Inductive Body :=
  | BPage (races : option (list Rec)) (total : option Z)
      (** [MRData.RaceTable?.Races] and [parseInt(MRData.total)] *)
  | BStandings (standings : option (list RawStanding.t)).
      (** [MRData.StandingsTable?.StandingsLists?.[0]?.ConstructorStandings] *)

Inductive Response :=
  | Ok (body : Body)
  | Fail (status : option Z).  (** HTTP status, [None] without a response *)

(** What a cache key holds: the paginated collection or the normalized
    constructor standings. *)
Inductive CacheData :=
  | CacheRecs (d : list Rec)
  | CacheStandings (d : list ConstructorStanding.t).

Record CacheRecord := mkCacheRecord { expiresAt : Z; data : CacheData }.

(** [now] is [Date.now()]; [currentYear] is [new Date().getFullYear()];
    [cache] is the cache part of [localStorage]; [requests] lists the
    requests sent so far; [jitter] the values [Math.floor(Math.random() * 250)]
    will return. *)
Record ClientState := mkClientState {
  now : Z;
  currentYear : Z;
  cache : gmap string CacheRecord;
  requests : list Request;
  jitter : list Z
}.

(** The provider answers the [n]-th request of the session. *)
Variable provider : Request -> nat -> Response.

Definition M (A : Type) : Type := ClientState -> Outcome A * ClientState.

#[local] Instance M_ret : MRet M := fun A x st => (Ret x, st).
#[local] Instance M_bind : MBind M := fun A B f m st =>
  match m st with
  | (Ret x, st') => f x st'
  | (Throw e, st') => (Throw e, st')
  end.

Definition throw {A} (e : Exn) : M A := fun st => (Throw e, st).

Definition catch {A} (m : M A) (h : Exn -> M A) : M A := fun st =>
  match m st with
  | (Throw e, st') => h e st'
  | r => r
  end.

Definition getState : M ClientState := fun st => (Ret st, st).

Definition api_get (req : Request) : M Body := fun st =>
  let st' := mkClientState (now st) (currentYear st) (cache st)
                           (requests st ++ [req]) (jitter st) in
  match provider req (length (requests st)) with
  | Ok b => (Ret b, st')
  | Fail status => (Throw (AxiosError status), st')
  end.

Definition isRateLimitAxiosError (e : Exn) : bool :=
  match e with AxiosError (Some 429%Z) => true | _ => false end.

Definition sleep (ms : Z) : M unit := fun st =>
  (Ret tt, mkClientState (now st + ms) (currentYear st) (cache st) (requests st) (jitter st)).

Definition randomJitter : M Z := fun st =>
  match jitter st with
  | j :: js => (Ret j, mkClientState (now st) (currentYear st) (cache st) (requests st) js)
  | [] => (Ret 0%Z, st)
  end.

Definition maxRetries : nat := 2.

(** The retry loop around [api.get]: [attempt] runs from 0 to
    [maxRetries]; [left] is [maxRetries - attempt]. *)
Fixpoint getWithRetries (left attempt : nat) (req : Request) : M Body :=
  catch (api_get req) (fun err =>
    match left with
    | O => throw err
    | S left' =>
        if isRateLimitAxiosError err then
          j ← randomJitter;
          _ ← sleep (500 * 2 ^ Z.of_nat attempt + j);
          getWithRetries left' (S attempt) req
        else throw err
    end).

Definition getCache (key : string) : M (option CacheData) := fun st =>
  (Ret (match cache st !! key with
        | Some r => if Z.ltb (expiresAt r) (now st) then None else Some (data r)
        | None => None
        end), st).

Definition getStaleCache (key : string) : M (option CacheData) := fun st =>
  (Ret (data <$> cache st !! key), st).

Definition setCache (key : string) (d : CacheData) (ttlMs : Z) : M unit := fun st =>
  (Ret tt, mkClientState (now st) (currentYear st)
             (<[key := mkCacheRecord (now st + ttlMs) d]> (cache st))
             (requests st) (jitter st)).

(** The typed reads [getCache<any[]>] and [getCache<ConstructorStanding[]>];
    each key is only ever written with its own kind of data. *)
Definition asRecs (o : option CacheData) : option (list Rec) :=
  match o with Some (CacheRecs d) => Some d | _ => None end.
Definition asStandings (o : option CacheData) : option (list ConstructorStanding.t) :=
  match o with Some (CacheStandings d) => Some d | _ => None end.

(** *** [fetchAllPaginated] *)

Definition pageLimit : Z := 100.

(** How the [while (hasMore)] loop ends: the loop finished, or the
    rate-limit handler returned a cached value from inside it. *)
Inductive LoopExit :=
  | Finished (allRaces : list Rec)
  | Returned (cached : list Rec).

Definition pageRaces (b : Body) : list Rec :=
  match b with BPage (Some rs) _ => rs | _ => [] end.

Definition pageTotal (b : Body) : Z :=
  match b with BPage _ (Some t) => t | _ => 0%Z end.

(** The rate-limit branch of the [catch] inside the loop: the cached value
    (fresh, then stale) or a [RateLimitError]; any other error is rethrown. *)
Definition onPageError (cacheKey : string) (error : Exn) : M (list Rec) :=
  if isRateLimitAxiosError error then
    c ← getCache cacheKey;
    match asRecs c with
    | Some d => mret d
    | None =>
        s ← getStaleCache cacheKey;
        match asRecs s with
        | Some d => mret d
        | None => throw RateLimitError
        end
    end
  else throw error.

(** One iteration of [while (hasMore)] per unit of fuel; the [try] covers
    the request of the current page, whose handler either leaves the
    function with a cached value or throws. *)
Fixpoint paginate (fuel : nat) (endpoint cacheKey : string) (offset : Z)
    (allRaces : list Rec) : M LoopExit :=
  match fuel with
  | O => throw OutOfFuel
  | S fuel' =>
      r ← catch
            (response ← getWithRetries maxRetries 0 (PageRequest endpoint pageLimit offset);
             mret (inl response))
            (fun error => cached ← onPageError cacheKey error; mret (inr cached));
      match r with
      | inr cached => mret (Returned cached)
      | inl response =>
          let races := pageRaces response in
          let total := pageTotal response in
          let allRaces' := allRaces ++ races in
          let offset' := (offset + pageLimit)%Z in
          if Z.ltb offset' total && Nat.ltb 0 (length races)
          then paginate fuel' endpoint cacheKey offset' allRaces'
          else mret (Finished allRaces')
      end
  end.

Definition paginatedKey (endpoint : string) : string :=
  String.append "jolpica:paginated:" endpoint.

Definition fetchAllPaginated (fuel : nat) (endpoint : string) : M (list Rec) :=
  st ← getState;
  let cacheKey := paginatedKey endpoint in
  let ttlMs := match getEndpointSeason endpoint with
               | Some s => getSeasonCacheTtlMs (currentYear st) s
               | None => (10 * 60 * 1000)%Z
               end in
  r ← paginate fuel endpoint cacheKey 0 [];
  match r with
  | Finished allRaces => _ ← setCache cacheKey (CacheRecs allRaces) ttlMs; mret allRaces
  | Returned d => mret d
  end.

(** *** [getConstructorStandings] *)

Definition standingsKey (s : string) : string :=
  String.append "jolpica:constructor-standings:" s.

Definition standingsEndpoint (s : string) : string :=
  String.append "/" (String.append s "/constructorStandings.json").

Definition getConstructorStandings (s : string) : M (list ConstructorStanding.t) :=
  st ← getState;
  let endpoint := standingsEndpoint s in
  let cacheKey := standingsKey s in
  let ttlMs := getSeasonCacheTtlMs (currentYear st) s in
  cached ← getCache cacheKey;
  match asStandings cached with
  | Some d => mret d
  | None =>
      catch
        (response ← getWithRetries maxRetries 0 (PlainRequest endpoint);
         let standings := match response with BStandings (Some l) => l | _ => [] end in
         let normalized := map normalizeStanding standings in
         _ ← setCache cacheKey (CacheStandings normalized) ttlMs;
         mret normalized)
        (fun error =>
           if isRateLimitAxiosError error then
             stale ← getStaleCache cacheKey;
             match asStandings stale with
             | Some d => mret d
             | None => throw RateLimitError
             end
           else mret [])
  end.

End Client.

Arguments BPage {Rec}.
Arguments BStandings {Rec}.
Arguments Ok {Rec}.
Arguments Fail {Rec}.
Arguments CacheRecs {Rec}.
Arguments CacheStandings {Rec}.
Arguments mkCacheRecord {Rec}.
Arguments expiresAt {Rec}.
Arguments data {Rec}.
Arguments mkClientState {Rec}.
Arguments now {Rec}.
Arguments currentYear {Rec}.
Arguments cache {Rec}.
Arguments requests {Rec}.
Arguments jitter {Rec}.
Arguments Finished {Rec}.
Arguments Returned {Rec}.
Arguments api_get {Rec}.
Arguments getWithRetries {Rec}.
Arguments getCache {Rec}.
Arguments getStaleCache {Rec}.
Arguments setCache {Rec}.
Arguments asRecs {Rec}.
Arguments asStandings {Rec}.
Arguments pageRaces {Rec}.
Arguments pageTotal {Rec}.
Arguments onPageError {Rec}.
Arguments paginate {Rec}.
Arguments fetchAllPaginated {Rec}.
Arguments getConstructorStandings {Rec}.

(* ================================================================= *)
(** ** Client scenarios *)

(** A provider serving a collection of records: the page at [offset] of
    size [limit], and [total] equal to the size of the collection. *)
Definition slice_provider {Rec} (coll : list Rec) (req : Request) (_ : nat) : Response Rec :=
  match req with
  | PageRequest _ lim off =>
      Ok (BPage (Some (firstn (Z.to_nat lim) (skipn (Z.to_nat off) coll)))
                (Some (Z.of_nat (length coll))))
  | PlainRequest _ => Fail (Some 404%Z)
  end.

(** [slice_provider] behind a rate limiter that rejects the first request
    of the session with a 429. *)
Definition flaky_provider {Rec} (coll : list Rec) (req : Request) (n : nat) : Response Rec :=
  if Nat.eqb n 0 then Fail (Some 429%Z) else slice_provider coll req n.

(** The requests of a run of the loop from the page at offset [100 * k],
    whose pages were each answered after the given number of attempts. *)
Fixpoint attemptRequests {Rec} (endpoint : string) (k : nat) (pages : list (Body Rec * nat))
    : list Request :=
  match pages with
  | [] => []
  | (_, m) :: rest =>
      repeat (PageRequest endpoint 100 (Z.of_nat (100 * k))) m ++ attemptRequests endpoint (S k) rest
  end.

(** The collection stored under [key], fresh or stale. *)
Definition cachedRecs {Rec} (st : ClientState Rec) (key : string) : option (list Rec) :=
  asRecs (data <$> cache st !! key).

(** The constructor standings stored under [key], fresh or stale. *)
Definition cachedStandings {Rec} (st : ClientState Rec) (key : string)
    : option (list ConstructorStanding.t) :=
  asStandings (data <$> cache st !! key).

(** A fresh session in 2025 at time 0 with an empty cache. *)
Definition client_start : ClientState nat := mkClientState 0 2025 ∅ [] [].

Definition season_endpoint : string := "/2021/results.json".

(** The session one second after a first [fetchAllPaginated] of the 2021
    results, served by a provider holding 30 records. *)
Definition after_first_call : ClientState nat :=
  let st1 := snd (fetchAllPaginated (slice_provider (seq 0 30)) 5 season_endpoint client_start) in
  mkClientState 1000 (currentYear st1) (cache st1) (requests st1) (jitter st1).

(** A provider that answers every request with HTTP 429. *)
Definition rate_limited_provider (req : Request) (n : nat) : Response nat := Fail (Some 429%Z).

Definition rb_standing : ConstructorStanding.t :=
  ConstructorStanding.mk "red_bull" "Red Bull" 1 860 21.

(** A session whose cache holds expired entries for the 2021 results and
    the 2021 constructor standings. *)
Definition stale_state : ClientState nat :=
  mkClientState 100000000 2025
    (<[paginatedKey season_endpoint := mkCacheRecord 0 (CacheRecs [1; 2; 3])]>
      (<[standingsKey "2021" := mkCacheRecord 0 (CacheStandings [rb_standing])]> ∅))
    [] [].

(* ================================================================= *)
(** ** [getRaceByRaceMatrix] and [getCountryCode] ([src/utils/storage.ts]) *)

(** [str.includes(key)] *)
Definition strIncludes (str key : string) : bool :=
  match String.index 0 key str with Some _ => true | None => false end.

(** [str.replace(pat, rep)] with a string pattern: the first occurrence. *)
Definition strReplace (str pat rep : string) : string :=
  match String.index 0 pat str with
  | Some i => String.append (substring 0 i str)
                (String.append rep (substring (i + String.length pat)
                                      (String.length str - (i + String.length pat)) str))
  | None => str
  end.

Definition countryMapping : list (string * string) :=
  [("Bahrain", "BH"); ("Saudi Arabian", "SA"); ("Australian", "AU");
   ("Japanese", "JP"); ("Chinese", "CN"); ("Miami", "US");
   ("Emilia Romagna", "IT"); ("Monaco", "MC"); ("Canadian", "CA");
   ("Spanish", "ES"); ("Austrian", "AT"); ("British", "GB");
   ("Hungarian", "HU"); ("Belgian", "BE"); ("Dutch", "NL");
   ("Italian", "IT"); ("Azerbaijan", "AZ"); ("Singapore", "SG");
   ("United States", "US"); ("Mexico City", "MX");
   (String "S" (String (ascii_of_nat 195) (String (ascii_of_nat 163) "o Paulo")), "BR");
   ("Las Vegas", "US"); ("Qatar", "QA"); ("Abu Dhabi", "AE")].

Definition getCountryCode (raceName : string) : string :=
  match List.find (fun kc => strIncludes raceName (fst kc)) countryMapping with
  | Some (_, code) => code
  | None => "XX"
  end.

Module RaceColumn.

Record t := mk {
    round : string;
    raceName : string;
    countryCode : string
  }.

End RaceColumn.

Module DriverRow.

Record t := mk {
    driverId : string;
    driverName : string;
    constructorId : string;
    constructorName : string;
    totalAverage : Q;
    raceRatings : gmap string Q
  }.

End DriverRow.

(** The comparator [parseInt(a.round) - parseInt(b.round)]; a [NaN] result
    counts as [+0]. *)
Definition compareRounds (a b : RaceRatings) : Z :=
  match parseInt (round a), parseInt (round b) with
  | Some x, Some y => (x - y)%Z
  | _, _ => 0%Z
  end.

(** A stable sort by [compareRounds], as insertion sort. *)
Fixpoint insertByRound (x : RaceRatings) (l : list RaceRatings) : list RaceRatings :=
  match l with
  | [] => [x]
  | y :: l' => if Z.leb (compareRounds y x) 0 then y :: insertByRound x l' else x :: l
  end.

Definition sortByRound (l : list RaceRatings) : list RaceRatings :=
  fold_left (fun acc x => insertByRound x acc) l [].

Definition raceColumn (race : RaceRatings) : RaceColumn.t :=
  RaceColumn.mk (round race)
    (strReplace (strReplace (raceName race) " Grand Prix" "") " GP" "")
    (getCountryCode (raceName race)).

Definition newRow (r : DriverRating) : DriverRow.t :=
  DriverRow.mk (driverId r) (driverName r) (constructorId r) (constructorName r) 0 ∅.

(** [raceRatings[race.round] = rating.rating] on the object literal [{}]:
    the key ["__proto__"] names the prototype setter of [Object.prototype],
    which ignores a number, so that assignment stores nothing. *)
Definition setRaceRating (rnd : string) (x : Q) (d : DriverRow.t) : DriverRow.t :=
  if String.eqb rnd "__proto__" then d
  else DriverRow.mk (DriverRow.driverId d) (DriverRow.driverName d)
         (DriverRow.constructorId d) (DriverRow.constructorName d)
         (DriverRow.totalAverage d) (<[rnd := x]> (DriverRow.raceRatings d)).

Definition addRowRating (rnd : string) (m : list (string * DriverRow.t)) (r : DriverRating)
    : list (string * DriverRow.t) :=
  let m1 := if map_has (driverId r) m then m else m ++ [(driverId r, newRow r)] in
  map_modify (driverId r) (setRaceRating rnd (rating r)) m1.

Definition addRaceRow (m : list (string * DriverRow.t)) (race : RaceRatings)
    : list (string * DriverRow.t) :=
  fold_left (addRowRating (round race)) (ratings race) m.

Definition finalizeRow (d : DriverRow.t) : DriverRow.t :=
  let rs := map snd (map_to_list (DriverRow.raceRatings d)) in
  DriverRow.mk (DriverRow.driverId d) (DriverRow.driverName d)
    (DriverRow.constructorId d) (DriverRow.constructorName d)
    (if Nat.ltb 0 (length rs)
     then round2 (sumQ rs / inject_Z (Z.of_nat (length rs)))
     else 0)
    (DriverRow.raceRatings d).

(** [sort((a, b) => b.totalAverage - a.totalAverage)], stable. *)
Fixpoint insertRowDesc (x : DriverRow.t) (l : list DriverRow.t) : list DriverRow.t :=
  match l with
  | [] => [x]
  | y :: l' =>
      if Qle_bool (DriverRow.totalAverage x) (DriverRow.totalAverage y)
      then y :: insertRowDesc x l'
      else x :: y :: l'
  end.

Definition sortRowsDesc (l : list DriverRow.t) : list DriverRow.t :=
  fold_left (fun acc x => insertRowDesc x acc) l [].

Definition getRaceByRaceMatrix (st : Store) (s : string)
    : list RaceColumn.t * list DriverRow.t :=
  match getSeasonRatings st s with
  | None => ([], [])
  | Some sr =>
      if Nat.eqb (length (races sr)) 0 then ([], [])
      else
        let sortedRaces := sortByRound (races sr) in
        let driverMap := fold_left addRaceRow sortedRaces [] in
        (map raceColumn sortedRaces,
         sortRowsDesc (map (fun kv => finalizeRow (snd kv)) driverMap))
  end.

Definition rowGe (a b : DriverRow.t) : Prop :=
  (DriverRow.totalAverage b <= DriverRow.totalAverage a)%Q.

Definition rowInv (m : list (string * DriverRow.t)) : Prop :=
  NoDup (map fst m) /\ Forall (fun kv => DriverRow.driverId (snd kv) = fst kv) m.

(** Every row of the map holds at least one race rating. *)
Definition rowsRated (m : list (string * DriverRow.t)) : Prop :=
  Forall (fun kv => DriverRow.raceRatings (snd kv) <> ∅) m.

(** *** Orders and counts of the rows *)

(** Non-increasing average rating. *)
Definition avgGe (a b : AverageRating.t) : Prop :=
  (AverageRating.averageRating b <= AverageRating.averageRating a)%Q.

(** A row counts as many races as it holds ratings, at least one. *)
Definition rowOk (a : AverageRating.t) : Prop :=
  AverageRating.totalRaces a = length (AverageRating.ratings a) /\
  0 < AverageRating.totalRaces a.

(** The races counted by the rows of a driver-team map. *)
Definition totalOf (m : list (string * AverageRating.t)) : nat :=
  list_sum (map (fun kv => AverageRating.totalRaces (snd kv)) m).

(** The ratings held by the completed races. *)
Definition ratedCount (rs : list RaceRatings) : nat :=
  list_sum (map (fun r => if completed r then length (ratings r) else 0) rs).

(* ================================================================= *)
(** ** Further sample data *)

(** A season whose races are stored out of round order; round 1 is not
    completed. *)
Definition mixed_season : SeasonRatings :=
  mkSeasonRatings "2024"
    [mkRaceRatings "2" "Saudi Arabian Grand Prix" "2024-03-09"
       [dr "max_verstappen" "red_bull" 9; dr "perez" "red_bull" 6] true;
     mkRaceRatings "1" "Bahrain Grand Prix" "2024-03-02"
       [dr "max_verstappen" "red_bull" 7; dr "hamilton" "mercedes" 8] false].

Definition mixed_store : Store :=
  store_of [("2024", mixed_season)] [("2024", [dr "norris" "mclaren" 7])].

(** A provider whose every request fails with a server error. *)
Definition server_error_provider (req : Request) (n : nat) : Response nat := Fail (Some 500%Z).

(** A provider answering the constructor standings with one row. *)
Definition standings_provider (req : Request) (n : nat) : Response nat :=
  Ok (BStandings (Some [RawStanding.mk (Some "mclaren") (Some "McLaren") (Some 1%Z)
                                       (Some 666%Q) (Some 6%Z)])).

(* ================================================================= *)
(** * Proofs *)

Example calc_test_two_stints :
  map (fun a => (AverageRating.constructorId a, AverageRating.averageRating a,
                 AverageRating.totalRaces a))
      (calculateAverages
         (store_of [("2024", mkSeasonRatings "2024"
                      [mkRaceRatings "1" "Bahrain" "d1" [dr "ver" "A" 8] true;
                       mkRaceRatings "2" "Saudi" "d2" [dr "ver" "A" 10] true;
                       mkRaceRatings "3" "Aus" "d3" [dr "ver" "B" 6] true])] [])
         "2024")
  = [("A", 9%Q, 2); ("B", 6%Q, 1)].
Proof. vm_compute. reflexivity. Qed.

(* ================================================================= *)
(** ** Lemmas on the rating store *)

Lemma addRace_filter (l : list RaceRatings) m :
  fold_left addRace l m = fold_left addRace (List.filter completed l) m.
Proof.
  induction l as [|r l IH] in m |- *; [done|].
  simpl. destruct (completed r) eqn:Hc; simpl; [apply IH|].
  replace (addRace m r) with m by (unfold addRace; by rewrite Hc). apply IH.
Qed.

Lemma insertDesc_perm x (l : list AverageRating.t) : insertDesc x l ≡ₚ x :: l.
Proof.
  induction l as [|y l IH]; simpl; [done|].
  destruct (Qle_bool _ _); [|done].
  rewrite IH. apply perm_swap.
Qed.

Lemma sortDesc_perm_acc (l acc : list AverageRating.t) :
  fold_left (fun acc x => insertDesc x acc) l acc ≡ₚ l ++ acc.
Proof.
  induction l as [|x l IH] in acc |- *; simpl; [done|].
  rewrite IH, insertDesc_perm. symmetry. apply Permutation_middle.
Qed.

Lemma sortDesc_perm (l : list AverageRating.t) : sortDesc l ≡ₚ l.
Proof. unfold sortDesc. rewrite sortDesc_perm_acc. by rewrite app_nil_r. Qed.

Lemma driverTeamMap_uncompleted (l : list RaceRatings) :
  Forall (fun r => completed r = false) l -> driverTeamMap l = [].
Proof.
  intros Hl. unfold driverTeamMap. rewrite addRace_filter.
  assert (List.filter completed l = []) as ->; [|done].
  induction Hl as [|r l Hr _ IH]; simpl; [done|]. by rewrite Hr.
Qed.

(* ================================================================= *)
(** ** C1: averages per (driver, constructor) stint *)

(** C1 (code_bug). The code keys the stints by the string
    [driverId ++ "_" ++ constructorId], which does not determine the pair:
    the ratings of ("max_verstappen", "red_bull") and of
    ("max", "verstappen_red_bull") are merged into one row averaging both
    races, instead of one row per pair with its own mean. *)
Lemma calculateAverages_key_collision :
  calculateAverages collision_store "2024" =
  [AverageRating.mk "max_verstappen" "max_verstappen" "red_bull" "red_bull"
     9 2 [8; 10]%Q].
Proof. vm_compute. reflexivity. Qed.

(* ================================================================= *)
(** ** C2: the fallback order of [calculateAverages] *)

(** C2 (counterexample). The stored season has a race entry, none is
    completed, and quick ratings exist: the result is empty, not the
    quick-ratings fallback. *)
Lemma calculateAverages_uncompleted_no_fallback :
  calculateAverages uncompleted_store "2024" = [] /\
  getQuickRatings uncompleted_store "2024" = Some [dr "max_verstappen" "red_bull" 7].
Proof. split; vm_compute; reflexivity. Qed.

Lemma filter_completed_nonempty (l : list RaceRatings) :
  Exists (fun r => completed r = true) l -> Nat.ltb 0 (length (List.filter completed l)) = true.
Proof.
  induction 1 as [r l Hr|r l _ IH]; simpl.
  - by rewrite Hr.
  - destruct (completed r); simpl; [done|exact IH].
Qed.

(** C2 (amended). [calculateAverages] takes the race-by-race path as soon
    as the stored season has at least one race entry, completed or not:
    (1) when a completed entry exists the result depends only on the
    completed entries (it is the same after dropping the other entries and
    the season's quick ratings); (2) when the season has race entries but
    none is completed the result is empty, quick ratings or not; (3) when
    the season has no race entry (absent or empty list) and its quick
    ratings are a non-empty list, the result is one row per quick rating,
    with [totalRaces = 1] and [averageRating] its rating, in some order;
    (4) with neither, the result is empty. *)
Theorem calculateAverages_fallback (st : Store) (s : string) :
  (forall sr, getSeasonRatings st s = Some sr ->
     Exists (fun r => completed r = true) (races sr) ->
     calculateAverages st s =
     calculateAverages
       (mkStore (<[s := mkSeasonRatings (season sr) (List.filter completed (races sr))]>
                   (allRatings st))
                (delete s (allQuickRatings st))) s) /\
  (forall sr, getSeasonRatings st s = Some sr -> races sr <> [] ->
     Forall (fun r => completed r = false) (races sr) ->
     calculateAverages st s = []) /\
  ((forall sr, getSeasonRatings st s = Some sr -> races sr = []) ->
     forall q, getQuickRatings st s = Some q -> q <> [] ->
     calculateAverages st s ≡ₚ
       map (fun r => AverageRating.mk (driverId r) (driverName r) (constructorId r)
                       (constructorName r) (rating r) 1 [rating r]) q) /\
  ((forall sr, getSeasonRatings st s = Some sr -> races sr = []) ->
     (getQuickRatings st s = None \/ getQuickRatings st s = Some []) ->
     calculateAverages st s = []).
Proof.
  unfold calculateAverages. split; [|split; [|split]].
  - intros sr Hsr Hex. unfold getSeasonRatings at 2, getQuickRatings at 2. simpl.
    rewrite Hsr, lookup_insert_eq. simpl.
    rewrite (filter_completed_nonempty _ Hex).
    assert (Nat.ltb 0 (length (races sr)) = true) as ->.
    { destruct (races sr); [inversion Hex|done]. }
    unfold driverTeamMap. by rewrite addRace_filter.
  - intros sr Hsr Hne Hall. rewrite Hsr.
    assert (Nat.ltb 0 (length (races sr)) = true) as ->.
    { destruct (races sr); [done|done]. }
    by rewrite driverTeamMap_uncompleted.
  - intros Hno q Hq Hne.
    assert (Hq' : (match getQuickRatings st s with
             | Some q => if Nat.ltb 0 (length q) then sortDesc (map fromQuick q) else []
             | None => [] end) = sortDesc (map fromQuick q)).
    { rewrite Hq. destruct q; [done|done]. }
    destruct (getSeasonRatings st s) as [sr|] eqn:Hsr.
    + rewrite (Hno sr eq_refl). simpl. rewrite Hq'. apply sortDesc_perm.
    + rewrite Hq'. apply sortDesc_perm.
  - intros Hno Hq.
    assert (Hq' : (match getQuickRatings st s with
             | Some q => if Nat.ltb 0 (length q) then sortDesc (map fromQuick q) else []
             | None => [] end) = []).
    { by destruct Hq as [-> | ->]. }
    destruct (getSeasonRatings st s) as [sr|] eqn:Hsr.
    + rewrite (Hno sr eq_refl). simpl. exact Hq'.
    + exact Hq'.
Qed.

Lemma calculateAverages_fallback_witness :
  calculateAverages uncompleted_store "2024" = [].
Proof.
  apply (proj1 (proj2 (calculateAverages_fallback uncompleted_store "2024"))
           (mkSeasonRatings "2024"
              [mkRaceRatings "1" "Bahrain Grand Prix" "2024-03-02"
                 [dr "max_verstappen" "red_bull" 8] false])).
  - vm_compute. reflexivity.
  - simpl. discriminate.
  - repeat constructor.
Defined.

(* ================================================================= *)
(** ** C7, C8: export and import *)

Lemma truthy_string_nonempty (s : string) : s <> "" -> truthy_string (Some s) = Some s.
Proof.
  intros Hs. simpl. destruct (String.eqb_spec s "") as [->|_]; [done|done].
Qed.

Lemma store_eta (st : Store) : mkStore (allRatings st) (allQuickRatings st) = st.
Proof. by destruct st. Qed.

(** C7. Importing the export of a season (a non-empty season identifier,
    as every 4-digit year is) succeeds and leaves the store as it was: the
    season's race-by-race entry and quick-ratings list are the exported
    ones.  Imported into any other store, the export installs the season's
    race-by-race entry and its (non-empty) quick-ratings list. *)
Theorem import_export_roundtrip {Text} (C : JsonCodec Text) (st : Store) (s now : string) :
  json_roundtrip C -> s <> "" ->
  ImportResult.success (fst (importRatings (exportRatings st s now) st)) = true /\
  snd (importRatings (exportRatings st s now) st) = st /\
  (forall st2 sr q,
     getSeasonRatings st s = Some sr -> getQuickRatings st s = Some q -> q <> [] ->
     ImportResult.success (fst (importRatings (exportRatings st s now) st2)) = true /\
     getSeasonRatings (snd (importRatings (exportRatings st s now) st2)) s = Some sr /\
     getQuickRatings (snd (importRatings (exportRatings st s now) st2)) s = Some q).
Proof.
  intros Hrt Hs. unfold importRatings, exportRatings. rewrite Hrt. simpl doc_season.
  rewrite (truthy_string_nonempty _ Hs). simpl.
  split; [|split].
  - destruct (getSeasonRatings st s), (getQuickRatings st s) as [[|]|]; done.
  - unfold getSeasonRatings, getQuickRatings, saveQuickRatings.
    destruct (allRatings st !! s) as [sr|] eqn:Hr;
      destruct (allQuickRatings st !! s) as [[|x q]|] eqn:Hq; simpl;
      rewrite ?store_eta; try done.
    all: first
      [ by rewrite (insert_id (allRatings st) s _ Hr),
                   (insert_id (allQuickRatings st) s _ Hq), store_eta
      | by rewrite (insert_id (allRatings st) s _ Hr), store_eta
      | by rewrite (insert_id (allQuickRatings st) s _ Hq), store_eta ].
  - intros st2 sr q Hsr Hq Hne. rewrite Hrt. simpl doc_season.
    rewrite (truthy_string_nonempty _ Hs). simpl. rewrite Hsr, Hq.
    destruct q as [|x q]; [done|]. simpl.
    unfold getSeasonRatings, getQuickRatings. simpl.
    by rewrite !lookup_insert_eq.
Qed.

Lemma import_export_roundtrip_witness :
  ImportResult.success (fst (importRatings (exportRatings collision_store "2024" "now")
                                           collision_store)) = true.
Proof.
  apply (proj1 (import_export_roundtrip parsed_codec collision_store "2024" "now"
                  (fun d => eq_refl) ltac:(discriminate))).
Defined.

(** C8. An import text that is not JSON, or whose document has no
    [season] field, is refused with a message and leaves the whole store,
    race-by-race and quick ratings of every season, unchanged. *)
Theorem import_malformed {Text} (C : JsonCodec Text) (t : Text) (st : Store) :
  (json_parse t = None \/ exists d, json_parse t = Some d /\ doc_season d = None) ->
  ImportResult.success (fst (importRatings t st)) = false /\
  (ImportResult.message (fst (importRatings t st)) = "Invalid JSON file format" \/
   ImportResult.message (fst (importRatings t st)) = "Invalid file: missing season") /\
  snd (importRatings t st) = st.
Proof.
  unfold importRatings. intros [-> | (d & -> & Hd)]; simpl.
  - auto.
  - rewrite Hd. simpl. auto.
Qed.

Lemma import_malformed_witness :
  snd (importRatings (Some (mkExportDoc None None None None None)) collision_store)
  = collision_store.
Proof.
  apply (import_malformed parsed_codec).
  right. exists (mkExportDoc None None None None None). split; reflexivity.
Defined.

(* ================================================================= *)
(** ** C9: [clearSeasonRatings] *)

(** C9. [clearSeasonRatings s] removes the season's entry from both rating
    maps and leaves every other season's entries in both maps as they
    were. *)
Theorem clearSeasonRatings_frame (st : Store) (s : string) :
  allRatings (clearSeasonRatings s st) = delete s (allRatings st) /\
  allQuickRatings (clearSeasonRatings s st) = delete s (allQuickRatings st) /\
  getSeasonRatings (clearSeasonRatings s st) s = None /\
  getQuickRatings (clearSeasonRatings s st) s = None /\
  (forall s', s' <> s ->
     getSeasonRatings (clearSeasonRatings s st) s' = getSeasonRatings st s' /\
     getQuickRatings (clearSeasonRatings s st) s' = getQuickRatings st s').
Proof.
  unfold getSeasonRatings, getQuickRatings, clearSeasonRatings; simpl.
  split; [done|split; [done|split; [|split]]].
  - apply lookup_delete_eq.
  - apply lookup_delete_eq.
  - intros s' Hne. split; apply lookup_delete_ne; congruence.
Qed.

Lemma clearSeasonRatings_frame_witness :
  getSeasonRatings (clearSeasonRatings "2023" two_seasons_store) "2024" =
  getSeasonRatings two_seasons_store "2024".
Proof.
  apply (proj2 (proj2 (proj2 (proj2 (clearSeasonRatings_frame two_seasons_store "2023"))))
           "2024" ltac:(discriminate)).
Defined.

(* ================================================================= *)
(** ** C10: race entries per round *)

Lemma findIndex_Some {A} (p : A -> bool) (l : list A) i :
  findIndex p l = Some i -> exists x, l !! i = Some x /\ p x = true.
Proof.
  induction l as [|y l IH] in i |- *; simpl; [discriminate|].
  destruct (p y) eqn:Hy.
  - intros [= <-]. by exists y.
  - destruct (findIndex p l) as [j|] eqn:Hj; simpl; [|discriminate].
    intros [= <-]. destruct (IH j eq_refl) as (x & Hx & Hpx). by exists x.
Qed.

Lemma findIndex_None {A} (p : A -> bool) (l : list A) :
  findIndex p l = None -> forall x, In x l -> p x = false.
Proof.
  induction l as [|y l IH]; simpl; [done|].
  destruct (p y) eqn:Hy; [discriminate|].
  destruct (findIndex p l); simpl; [discriminate|].
  intros _ x [<- | Hx]; [done|]. by apply IH.
Qed.

Lemma map_round_insert (l : list RaceRatings) i y x :
  l !! i = Some y -> round y = round x -> map round (<[i := x]> l) = map round l.
Proof.
  induction l as [|z l IH] in i |- *; [discriminate|].
  destruct i as [|i]; simpl.
  - intros [= ->] Hr. by rewrite Hr.
  - intros Hi Hr. by rewrite (IH i Hi Hr).
Qed.

Lemma NoDup_map_round_snoc (l : list RaceRatings) x :
  NoDup (map round l) -> ~ In (round x) (map round l) ->
  NoDup (map round (l ++ [x])).
Proof.
  intros Hl Hx. rewrite map_app. simpl.
  apply NoDup_app. split; [done|split].
  - intros y Hy Hy'. apply list_elem_of_In in Hy.
    apply list_elem_of_singleton in Hy'. subst y. contradiction.
  - apply NoDup_singleton.
Qed.

Lemma saveRaceRatings_rounds_unique st s rnd name dt rs :
  rounds_unique st -> rounds_unique (saveRaceRatings s rnd name dt rs st).
Proof.
  intros Hinv s' sr'. unfold saveRaceRatings. simpl.
  destruct (decide (s = s')) as [<-|Hne].
  - rewrite lookup_insert_eq. intros [= <-]. simpl.
    set (sr := match allRatings st !! s with Some sr => sr | None => mkSeasonRatings s [] end).
    assert (Hsr : NoDup (map round (races sr))).
    { unfold sr. destruct (allRatings st !! s) as [sr0|] eqn:H0.
      - by apply (Hinv s). - constructor. }
    destruct (findIndex _ (races sr)) as [i|] eqn:Hf.
    + destruct (findIndex_Some _ _ _ Hf) as (y & Hy & Hpy).
      apply String.eqb_eq in Hpy.
      by rewrite (map_round_insert _ _ y (mkRaceRatings rnd name dt rs true) Hy Hpy).
    + apply NoDup_map_round_snoc; [done|]. simpl.
      intros Hin. apply in_map_iff in Hin as (y & Hy & Hin).
      pose proof (findIndex_None _ _ Hf y Hin) as Hp. simpl in Hp.
      rewrite Hy, String.eqb_refl in Hp. discriminate.
  - rewrite lookup_insert_ne by done. apply Hinv.
Qed.

Lemma saveQuickRatings_rounds_unique st s rs :
  rounds_unique st -> rounds_unique (saveQuickRatings s rs st).
Proof. intros Hinv. exact Hinv. Qed.

Lemma clearSeasonRatings_rounds_unique st s :
  rounds_unique st -> rounds_unique (clearSeasonRatings s st).
Proof.
  intros Hinv s' sr. simpl.
  destruct (decide (s = s')) as [<-|Hne].
  - by rewrite lookup_delete_eq.
  - rewrite lookup_delete_ne by done. apply Hinv.
Qed.

Lemma importRatings_rounds_unique {Text} (C : JsonCodec Text) (t : Text) st :
  rounds_unique st ->
  (forall d rr, json_parse t = Some d -> doc_raceRatings d = Some rr ->
     NoDup (map round (races rr))) ->
  rounds_unique (snd (importRatings t st)).
Proof.
  intros Hinv Hdoc. unfold importRatings.
  destruct (json_parse t) as [d|] eqn:Hp; [|done].
  destruct (truthy_string (doc_season d)) as [s|]; [|done].
  assert (Hst1 : rounds_unique
    (match doc_raceRatings d with
     | Some rr => mkStore (<[s := rr]> (allRatings st)) (allQuickRatings st)
     | None => st end)).
  { destruct (doc_raceRatings d) as [rr|] eqn:Hr; [|done].
    intros s' sr. simpl. destruct (decide (s = s')) as [<-|Hne].
    - rewrite lookup_insert_eq. intros [= <-]. by apply (Hdoc d).
    - rewrite lookup_insert_ne by done. apply Hinv. }
  destruct (doc_raceRatings d) as [rr|]; simpl;
    destruct (doc_quickRatings d) as [[|q qs]|]; simpl; done.
Qed.

(** C10 (amended). [saveRaceRatings] (which replaces the entry of an
    existing round), [saveQuickRatings] and [clearSeasonRatings] keep every
    season's race list free of duplicate rounds; [importRatings] keeps it
    when the imported [raceRatings.races] list has no duplicate rounds
    (it stores that list as it is). *)
Theorem rounds_unique_preserved (st : Store) :
  rounds_unique st ->
  (forall s rnd name dt rs, rounds_unique (saveRaceRatings s rnd name dt rs st)) /\
  (forall s rs, rounds_unique (saveQuickRatings s rs st)) /\
  (forall s, rounds_unique (clearSeasonRatings s st)) /\
  (forall Text (C : JsonCodec Text) (t : Text),
     (forall d rr, json_parse t = Some d -> doc_raceRatings d = Some rr ->
        NoDup (map round (races rr))) ->
     rounds_unique (snd (importRatings t st))).
Proof.
  intros Hinv. split; [|split; [|split]].
  - intros. by apply saveRaceRatings_rounds_unique.
  - intros. by apply saveQuickRatings_rounds_unique.
  - intros. by apply clearSeasonRatings_rounds_unique.
  - intros Text C t Hdoc. by apply importRatings_rounds_unique.
Qed.

Lemma rounds_unique_collision_store : rounds_unique collision_store.
Proof.
  intros s sr. unfold collision_store, store_of. simpl.
  destruct (decide (s = "2024")) as [->|Hne].
  - rewrite lookup_insert_eq. intros [= <-]. simpl.
    apply NoDup_singleton.
  - rewrite lookup_insert_ne by congruence. by rewrite lookup_empty.
Qed.

Lemma rounds_unique_preserved_witness :
  rounds_unique (saveRaceRatings "2024" "1" "Bahrain Grand Prix" "2024-03-02"
                   [dr "max_verstappen" "red_bull" 9] collision_store).
Proof.
  apply (proj1 (rounds_unique_preserved collision_store rounds_unique_collision_store)).
Defined.

(** C10 (counterexample). Importing that document into the empty store,
    which satisfies the invariant, stores round "1" twice. *)
Lemma import_duplicate_rounds :
  rounds_unique (mkStore ∅ ∅) /\
  ~ rounds_unique (snd (importRatings (Some duplicate_rounds_doc) (mkStore ∅ ∅))).
Proof.
  split.
  - intros s sr. simpl. by rewrite lookup_empty.
  - intros Hinv.
    assert (Hnd := Hinv "2024" _ (lookup_insert_eq _ _ _)).
    simpl in Hnd. inversion Hnd as [|x l Hx _]. apply Hx. left.
Qed.

(* ================================================================= *)
(** ** C3: head-to-head tallies *)

Example h2h_test :
  calculateH2H
    [rr "1" "ver" "rb" (Some 1%Z); rr "1" "per" "rb" (Some 4%Z);
     rr "2" "ver" "rb" None; rr "2" "per" "rb" (Some 2%Z);
     rr "3" "ver" "rb" (Some 5%Z); rr "3" "per" "rb" (Some 3%Z)]
    [qr "1" "ver" "rb" 1; qr "1" "per" "rb" 3; qr "2" "ver" "rb" 2;
     qr "2" "per" "rb" 5; qr "3" "ver" "rb" 4]
    "ver" "per" "rb"
  = mkH2HStats 1 1 2 0 2 2.
Proof. reflexivity. Qed.


Lemma setAdd_In x y (l : list string) : In y (setAdd x l) <-> y = x \/ In y l.
Proof.
  unfold setAdd. destruct (existsb (String.eqb x) l) eqn:He.
  - apply existsb_exists in He as (z & Hz & Hxz). apply String.eqb_eq in Hxz. subst z.
    split; [tauto|]. intros [->|H]; tauto.
  - rewrite in_app_iff. simpl. split.
    + intros [H|[H|[]]]; auto.
    + intros [H|H]; auto.
Qed.

Lemma setAdd_NoDup x (l : list string) : NoDup l -> NoDup (setAdd x l).
Proof.
  intros Hl. unfold setAdd. destruct (existsb (String.eqb x) l) eqn:He; [done|].
  apply NoDup_app. split; [done|split; [|apply NoDup_singleton]].
  intros y Hy Hy'. apply list_elem_of_singleton in Hy'. subst y.
  apply list_elem_of_In in Hy.
  assert (existsb (String.eqb x) l = true) as Hc; [|congruence].
  apply existsb_exists. exists x. split; [done|apply String.eqb_refl].
Qed.

Lemma roundsOf_spec (rs : list SeasonRaceResult.t) a b c (acc : list string) :
  NoDup acc ->
  let l := fold_left
    (fun acc r =>
       if String.eqb (SeasonRaceResult.constructorId r) c &&
          (String.eqb (SeasonRaceResult.driverId r) a ||
           String.eqb (SeasonRaceResult.driverId r) b)
       then setAdd (SeasonRaceResult.round r) acc else acc) rs acc in
  NoDup l /\
  (forall rd, In rd l <-> In rd acc \/
     exists r, In r rs /\ SeasonRaceResult.constructorId r = c /\
       (SeasonRaceResult.driverId r = a \/ SeasonRaceResult.driverId r = b) /\
       SeasonRaceResult.round r = rd).
Proof.
  induction rs as [|r rs IH] in acc |- *; intros Hacc; simpl.
  - split; [done|]. intros rd. split; [tauto|]. intros [H|(r & [] & _)]; done.
  - destruct (String.eqb (SeasonRaceResult.constructorId r) c &&
              (String.eqb (SeasonRaceResult.driverId r) a ||
               String.eqb (SeasonRaceResult.driverId r) b)) eqn:Hc.
    + destruct (IH _ (setAdd_NoDup (SeasonRaceResult.round r) _ Hacc)) as [Hnd Hin].
      split; [done|]. intros rd. rewrite Hin, setAdd_In.
      apply andb_true_iff in Hc as [Hc1 Hc2]. apply String.eqb_eq in Hc1.
      apply orb_true_iff in Hc2. rewrite !String.eqb_eq in Hc2.
      split.
      * intros [[->|H]|(r' & H1 & H2)]; [|tauto|].
        -- right. exists r. tauto.
        -- right. exists r'. tauto.
      * intros [H|(r' & [<-|H1] & H2)]; [tauto| |].
        -- left. left. symmetry. tauto.
        -- right. exists r'. tauto.
    + destruct (IH _ Hacc) as [Hnd Hin]. split; [done|].
      intros rd. rewrite Hin. split.
      * intros [H|(r' & H1 & H2)]; [tauto|]. right. exists r'. tauto.
      * intros [H|(r' & [<-|H1] & H2 & H3 & H4)]; [tauto| |].
        -- exfalso. apply String.eqb_eq in H2.
           destruct H3 as [H3|H3]; apply String.eqb_eq in H3;
             rewrite H2, H3 in Hc; simpl in Hc; rewrite ?orb_true_r in Hc; discriminate.
        -- right. exists r'. tauto.
Qed.

Lemma h2hRound_step rR qR a b c s rd :
  h2hRound rR qR a b c s rd =
  mkH2HStats
    (raceWinsA s + if pairWonByA (racePair rR a b c rd) then 1 else 0)
    (raceWinsB s + if pairWonByB (racePair rR a b c rd) then 1 else 0)
    (qualiWinsA s + if pairWonByA (qualiPair qR a b c rd) then 1 else 0)
    (qualiWinsB s + if pairWonByB (qualiPair qR a b c rd) then 1 else 0)
    (totalRaces s + if pairCounted (racePair rR a b c rd) then 1 else 0)
    (totalQualis s + if pairCounted (qualiPair qR a b c rd) then 1 else 0).
Proof.
  destruct s. unfold h2hRound, racePair, qualiPair.
  destruct (finishedPos (findRace rR rd a c)) as [pa|],
           (finishedPos (findRace rR rd b c)) as [pb|];
  destruct (findQuali qR rd a c) as [qa|], (findQuali qR rd b c) as [qb|]; simpl;
  repeat match goal with
         | |- context [Z.ltb ?x ?y] => destruct (Z.ltb_spec x y)
         end; simpl; f_equal; lia.
Qed.

Lemma h2h_fold rR qR a b c (l : list string) s :
  fold_left (h2hRound rR qR a b c) l s =
  mkH2HStats
    (raceWinsA s + count (fun rd => pairWonByA (racePair rR a b c rd)) l)
    (raceWinsB s + count (fun rd => pairWonByB (racePair rR a b c rd)) l)
    (qualiWinsA s + count (fun rd => pairWonByA (qualiPair qR a b c rd)) l)
    (qualiWinsB s + count (fun rd => pairWonByB (qualiPair qR a b c rd)) l)
    (totalRaces s + count (fun rd => pairCounted (racePair rR a b c rd)) l)
    (totalQualis s + count (fun rd => pairCounted (qualiPair qR a b c rd)) l).
Proof.
  induction l as [|rd l IH] in s |- *; simpl.
  - destruct s. unfold count. simpl. f_equal; lia.
  - rewrite IH, h2hRound_step. unfold count.
    cbn [List.filter length raceWinsA raceWinsB qualiWinsA qualiWinsB totalRaces totalQualis].
    destruct (pairWonByA (racePair rR a b c rd)), (pairWonByB (racePair rR a b c rd)),
             (pairWonByA (qualiPair qR a b c rd)), (pairWonByB (qualiPair qR a b c rd)),
             (pairCounted (racePair rR a b c rd)), (pairCounted (qualiPair qR a b c rd));
      simpl; f_equal; lia.
Qed.

(** C3 (amended). Let [rounds] be the rounds in which driver A or driver B
    has a race result under constructor C (each once).  Over exactly those
    rounds: a round counts in [totalRaces] iff both drivers have a race
    result there under C with a non-null (and non-zero: positions are
    1-based) finishing position, and then the lower position wins it, equal
    positions winning for neither; a round counts in [totalQualis] iff both
    drivers have a qualifying entry there under C, and the lower qualifying
    position wins it.  A round with a qualifying entry for both drivers but
    no race result under C for either is not compared. *)
Theorem calculateH2H_counts (raceResults : list SeasonRaceResult.t)
    (qualiResults : list SeasonQualifyingResult.t) (a b c : string) :
  let rounds := roundsOf raceResults a b c in
  NoDup rounds /\
  (forall rd, In rd rounds <->
     exists r, In r raceResults /\ SeasonRaceResult.constructorId r = c /\
       (SeasonRaceResult.driverId r = a \/ SeasonRaceResult.driverId r = b) /\
       SeasonRaceResult.round r = rd) /\
  calculateH2H raceResults qualiResults a b c =
  mkH2HStats
    (count (fun rd => pairWonByA (racePair raceResults a b c rd)) rounds)
    (count (fun rd => pairWonByB (racePair raceResults a b c rd)) rounds)
    (count (fun rd => pairWonByA (qualiPair qualiResults a b c rd)) rounds)
    (count (fun rd => pairWonByB (qualiPair qualiResults a b c rd)) rounds)
    (count (fun rd => pairCounted (racePair raceResults a b c rd)) rounds)
    (count (fun rd => pairCounted (qualiPair qualiResults a b c rd)) rounds).
Proof.
  intros rounds.
  destruct (roundsOf_spec raceResults a b c [] NoDup_nil_2) as [Hnd Hin].
  split; [exact Hnd|split].
  - intros rd. unfold rounds, roundsOf. rewrite Hin. simpl. tauto.
  - unfold calculateH2H. rewrite h2h_fold. reflexivity.
Qed.

(** C3 (counterexample). Both drivers have a qualifying entry under the
    constructor in rounds 1 and 2, but only round 1 is compared:
    [totalQualis] is 1, not 2, and Pérez's round-2 pole is not counted. *)
Lemma calculateH2H_quali_needs_race_round :
  calculateH2H h2h_race_results h2h_quali_results "ver" "per" "red_bull"
  = mkH2HStats 1 0 1 0 1 1 /\
  qualiPair h2h_quali_results "ver" "per" "red_bull" "2" = Some (3%Z, 1%Z).
Proof. split; reflexivity. Qed.

Lemma calculateH2H_counts_witness :
  totalQualis (calculateH2H h2h_race_results h2h_quali_results "ver" "per" "red_bull") =
  count (fun rd => pairCounted (qualiPair h2h_quali_results "ver" "per" "red_bull" rd))
        (roundsOf h2h_race_results "ver" "per" "red_bull").
Proof.
  rewrite (proj2 (proj2 (calculateH2H_counts h2h_race_results h2h_quali_results
                           "ver" "per" "red_bull"))).
  reflexivity.
Defined.

(* ================================================================= *)
(** ** Remote data client *)

(** A request answered at the first attempt. *)
Lemma getWithRetries_ok {Rec} (p : Request -> nat -> Response Rec) l a req st b :
  p req (length (requests st)) = Ok b ->
  getWithRetries p l a req st =
  (Ret b, mkClientState (now st) (currentYear st) (cache st) (requests st ++ [req]) (jitter st)).
Proof. intros H. destruct l; cbn [getWithRetries]; unfold catch, api_get; rewrite H; reflexivity. Qed.

Lemma getWithRetries_first {Rec} (p : Request -> nat -> Response Rec) l a req st :
  exists rest, requests (snd (getWithRetries p l a req st)) = requests st ++ req :: rest.
Proof.
  revert a st. induction l as [|l IH]; intros a st; cbn [getWithRetries];
    unfold catch, api_get; destruct (p req (length (requests st))) as [b|s];
    try destruct (isRateLimitAxiosError (AxiosError s)) eqn:E; cbn [snd requests];
    try (exists []; reflexivity).
  unfold mbind, M_bind, randomJitter, sleep.
  destruct (jitter st) as [|j js]; cbn [snd requests jitter];
  match goal with |- context [getWithRetries p l ?a' req ?st'] =>
    destruct (IH a' st') as [rest Hr] end;
  exists (req :: rest); rewrite Hr; cbn; rewrite <- app_assoc; reflexivity.
Qed.

Lemma getWithRetries_cache {Rec} (p : Request -> nat -> Response Rec) l a req st :
  cache (snd (getWithRetries p l a req st)) = cache st.
Proof.
  revert a st. induction l as [|l IH]; intros a st; cbn [getWithRetries];
    unfold catch, api_get; destruct (p req (length (requests st))) as [b|s];
    try destruct (isRateLimitAxiosError (AxiosError s)) eqn:E; cbn [snd cache];
    try reflexivity.
  unfold mbind, M_bind, randomJitter, sleep.
  destruct (jitter st) as [|j js]; cbn [snd cache jitter]; rewrite IH; reflexivity.
Qed.

Lemma getWithRetries_axios {Rec} (p : Request -> nat -> Response Rec) l a req st e :
  fst (getWithRetries p l a req st) = Throw e -> exists status, e = AxiosError status.
Proof.
  revert a st. induction l as [|l IH]; intros a st; cbn [getWithRetries];
    unfold catch, api_get; destruct (p req (length (requests st))) as [b|s];
    try destruct (isRateLimitAxiosError (AxiosError s)) eqn:E; cbn [fst];
    try (intros H; injection H as <-; eauto); try discriminate.
  unfold mbind, M_bind, randomJitter, sleep.
  destruct (jitter st) as [|j js]; apply IH.
Qed.

Lemma onPageError_state {Rec} key e (st : ClientState Rec) :
  snd (onPageError key e st) = st.
Proof.
  unfold onPageError, mbind, M_bind, mret, M_ret, throw, getCache, getStaleCache.
  destruct (isRateLimitAxiosError e); [|reflexivity].
  destruct (asRecs _); [reflexivity|]. destruct (asRecs _); reflexivity.
Qed.

Lemma onPageError_rate {Rec} key e (st : ClientState Rec) :
  isRateLimitAxiosError e = true ->
  fst (onPageError key e st) =
  match cachedRecs st key with Some d => Ret d | None => Throw RateLimitError end.
Proof.
  intros He. unfold onPageError, cachedRecs, mbind, M_bind, mret, M_ret, throw, getCache, getStaleCache.
  rewrite He. destruct (cache st !! key) as [[x [d|d]]|] eqn:Hk; cbn;
    try destruct (x <? now st)%Z; cbn; rewrite ?Hk; reflexivity.
Qed.

Lemma onPageError_not_rate {Rec} key e (st : ClientState Rec) :
  isRateLimitAxiosError e = false -> fst (onPageError key e st) = Throw e.
Proof. intros He. unfold onPageError. rewrite He. reflexivity. Qed.

Lemma getWithRetries_ret {Rec} (p : Request -> nat -> Response Rec) l a req st b st1 :
  getWithRetries p l a req st = (Ret b, st1) ->
  cache st1 = cache st /\
  exists m i, 1 <= m <= S l /\ requests st1 = requests st ++ repeat req m /\ p req i = Ok b.
Proof.
  revert a st. induction l as [|l IH]; intros a st; cbn [getWithRetries];
    unfold catch, api_get; destruct (p req (length (requests st))) as [b'|s] eqn:Hp;
    try destruct (isRateLimitAxiosError (AxiosError s)) eqn:E; cbv beta iota zeta;
    try (intros H; injection H as <- <-; split; [reflexivity|];
         exists 1, (length (requests st)); split; [lia|]; split; [reflexivity|exact Hp]);
    try discriminate.
  unfold mbind, M_bind, randomJitter, sleep.
  destruct (jitter st) as [|j js]; cbn [jitter now currentYear cache requests];
  match goal with |- getWithRetries p l ?a' req ?st' = _ -> _ =>
    intros H; destruct (IH a' st' H) as (Hc & m & i & Hm & Hr & Hi) end;
  (split; [exact Hc|]); exists (S m), i; (split; [lia|]); (split; [|exact Hi]);
  rewrite Hr; cbn [requests]; rewrite <- app_assoc; reflexivity.
Qed.

Lemma getWithRetries_rate {Rec} (p : Request -> nat -> Response Rec) l a req st e st1 :
  getWithRetries p l a req st = (Throw e, st1) -> isRateLimitAxiosError e = true ->
  cache st1 = cache st /\ requests st1 = requests st ++ repeat req (S l).
Proof.
  revert a st. induction l as [|l IH]; intros a st; cbn [getWithRetries];
    unfold catch, api_get; destruct (p req (length (requests st))) as [b'|s] eqn:Hp;
    try destruct (isRateLimitAxiosError (AxiosError s)) eqn:E;
    cbv beta iota zeta; try discriminate;
    try (intros H; injection H as <- <-; intros He; try congruence; split; reflexivity).
  unfold mbind, M_bind, randomJitter, sleep.
  destruct (jitter st) as [|j js]; cbn [jitter now currentYear cache requests];
  match goal with |- getWithRetries p l ?a' req ?st' = _ -> _ =>
    intros H He; destruct (IH a' st' H He) as (Hc & Hr) end;
  (split; [exact Hc|]); rewrite Hr; cbn [requests]; rewrite <- app_assoc; reflexivity.
Qed.

Lemma paginate_continue_spec {Rec} k (b : Body Rec) :
  (Z.of_nat (100 * k) + pageLimit <? pageTotal b)%Z && (0 <? length (pageRaces b))%nat = true <->
  (Z.of_nat (100 * (k + 1)) < pageTotal b)%Z /\ pageRaces b <> [].
Proof.
  rewrite andb_true_iff, Z.ltb_lt, Nat.ltb_lt. unfold pageLimit.
  destruct (pageRaces b); cbn [length]; split; intros [H1 H2]; split; try lia; try congruence.
Qed.

(** A run of the loop from the page at offset [100 * k] that returns: the
    pages it received, each after one to three attempts, then either the end
    of the loop or the cached value of a 429. *)
Lemma paginate_run {Rec} (p : Request -> nat -> Response Rec) fuel ep key k acc st r st' :
  paginate p fuel ep key (Z.of_nat (100 * k)) acc st = (Ret r, st') ->
  exists pages : list (Body Rec * nat),
    (forall j bm, pages !! j = Some bm ->
       1 <= snd bm <= 3 /\
       exists i, p (PageRequest ep 100 (Z.of_nat (100 * (k + j)))) i = Ok (fst bm)) /\
    cache st' = cache st /\
    match r with
    | Finished all =>
        pages <> [] /\
        all = acc ++ concat (map (fun bm => pageRaces (fst bm)) pages) /\
        requests st' = requests st ++ attemptRequests ep k pages /\
        (forall j bm, pages !! j = Some bm ->
           ((Z.of_nat (100 * (k + j + 1)) < pageTotal (fst bm))%Z /\ pageRaces (fst bm) <> [])
           <-> S j < length pages)
    | Returned d =>
        cachedRecs st key = Some d /\
        requests st' = requests st ++ attemptRequests ep k pages ++
                       repeat (PageRequest ep 100 (Z.of_nat (100 * (k + length pages)))) 3 /\
        (forall j bm, pages !! j = Some bm ->
           (Z.of_nat (100 * (k + j + 1)) < pageTotal (fst bm))%Z /\ pageRaces (fst bm) <> [])
    end.
Proof.
  revert k acc st. induction fuel as [|f IH]; intros k acc st; [discriminate|].
  cbn [paginate]. unfold mbind, M_bind, catch, mret, M_ret.
  destruct (getWithRetries p maxRetries 0 (PageRequest ep pageLimit (Z.of_nat (100 * k))) st)
    as [[b|e] st1] eqn:Hg.
  - destruct (getWithRetries_ret p _ _ _ _ _ _ Hg) as (Hc1 & m & i & Hm & Hr1 & Hi).
    destruct (_ && _) eqn:Hcont.
    + replace (Z.of_nat (100 * k) + pageLimit)%Z with (Z.of_nat (100 * S k))
        by (unfold pageLimit; lia).
      intros H. destruct (IH _ _ _ H) as (pages & Hpg & Hc & Hr).
      exists ((b, m) :: pages). split; [|split; [congruence|]].
      { intros [|j] bm Hj; cbn in Hj.
        - injection Hj as <-. cbn [fst snd]. split; [exact Hm|].
          exists i. rewrite Nat.add_0_r. exact Hi.
        - destruct (Hpg j bm Hj) as [Hj1 Hj2]. split; [exact Hj1|].
          replace (k + S j) with (S k + j) by lia. exact Hj2. }
      destruct r as [all|d]; [destruct Hr as (Hne & Hr & Hr'' & Hr3)|destruct Hr as (Hr & Hr' & Hr'')].
      * split; [discriminate|]. split.
        { rewrite Hr. cbn [map concat fst]. rewrite <- app_assoc. reflexivity. }
        split.
        { rewrite Hr'', Hr1. cbn [attemptRequests]. rewrite <- app_assoc. reflexivity. }
        intros [|j] bm Hj; cbn in Hj.
        { injection Hj as <-. cbn [fst length].
          rewrite Nat.add_0_r, <- paginate_continue_spec, Hcont.
          destruct pages; [congruence|cbn [length]]. split; intros; [lia|reflexivity]. }
        replace (k + S j + 1) with (S k + j + 1) by lia.
        rewrite (Hr3 j bm Hj). cbn [length]. lia.
      * split; [unfold cachedRecs in *; rewrite <- Hc1; exact Hr|]. split.
        { rewrite Hr', Hr1. cbn [attemptRequests length].
          replace (k + S (length pages)) with (S k + length pages) by lia.
          rewrite <- !app_assoc. reflexivity. }
        intros [|j] bm Hj; cbn in Hj.
        { injection Hj as <-. cbn [fst].
          rewrite Nat.add_0_r, <- paginate_continue_spec. exact Hcont. }
        replace (k + S j + 1) with (S k + j + 1) by lia. exact (Hr'' j bm Hj).
    + intros H. injection H as <- <-. exists [(b, m)]. split; [|split; [exact Hc1|]].
      { intros [|j] bm Hj; cbn in Hj; [|discriminate].
        injection Hj as <-. cbn [fst snd]. split; [exact Hm|].
        exists i. rewrite Nat.add_0_r. exact Hi. }
      split; [discriminate|]. split; [cbn; rewrite app_nil_r; reflexivity|]. split.
      { rewrite Hr1. cbn [attemptRequests]. rewrite app_nil_r. reflexivity. }
      intros [|j] bm Hj; cbn in Hj; [|discriminate].
      injection Hj as <-. cbn [fst length].
      rewrite Nat.add_0_r, <- paginate_continue_spec, Hcont. split; intros; [discriminate|lia].
  - destruct (getWithRetries_axios p maxRetries 0 (PageRequest ep pageLimit (Z.of_nat (100 * k))) st e)
      as [status ->]; [rewrite Hg; reflexivity|].
    pose proof (onPageError_state key (AxiosError status) st1) as Hs.
    destruct (isRateLimitAxiosError (AxiosError status)) eqn:He.
    + destruct (getWithRetries_rate p _ _ _ _ _ _ Hg He) as [Hc1 Hr1].
      pose proof (onPageError_rate key _ st1 He) as Hr.
      destruct (onPageError key _ st1) as [[d|e'] st2]; cbn in Hs, Hr |- *; [|discriminate].
      intros H. injection H as <- <-. subst st2. exists []. split; [|split; [exact Hc1|]].
      { intros j bm Hj. discriminate. }
      split.
      { unfold cachedRecs in *. rewrite <- Hc1. destruct (asRecs _); congruence. }
      split; [|intros j bm Hj; discriminate].
      rewrite Hr1. cbn [attemptRequests length app]. rewrite Nat.add_0_r. reflexivity.
    + pose proof (onPageError_not_rate key _ st1 He) as Hr.
      destruct (onPageError key _ st1) as [[d|e'] st2]; cbn in Hs, Hr |- *; congruence.
Qed.

Lemma paginate_rate_limit_error {Rec} (p : Request -> nat -> Response Rec) fuel ep key off acc st :
  fst (paginate p fuel ep key off acc st) = Throw RateLimitError ->
  cachedRecs st key = None.
Proof.
  revert off acc st. induction fuel as [|f IH]; intros off acc st; [discriminate|].
  cbn [paginate]. unfold mbind, M_bind, catch, mret, M_ret.
  pose proof (getWithRetries_cache p maxRetries 0 (PageRequest ep pageLimit off) st) as Hc.
  destruct (getWithRetries p maxRetries 0 (PageRequest ep pageLimit off) st) as [[b|e] st1] eqn:Hgw; cbn in Hc |- *.
  - destruct (_ && _); [|discriminate].
    intros H. apply IH in H. unfold cachedRecs in *. rewrite <- Hc. exact H.
  - pose proof (onPageError_state key e st1) as Hs.
    destruct (getWithRetries_axios p maxRetries 0 (PageRequest ep pageLimit off) st e)
      as [status ->]; [rewrite Hgw; reflexivity|].
    destruct (isRateLimitAxiosError (AxiosError status)) eqn:He.
    + pose proof (onPageError_rate key _ st1 He) as Hr.
      destruct (onPageError key _ st1) as [[d|e'] st2]; cbn in Hs, Hr |- *; [discriminate|].
      unfold cachedRecs in *. rewrite Hc in Hr.
      destruct (asRecs _); congruence.
    + pose proof (onPageError_not_rate key _ st1 He) as Hr.
      destruct (onPageError key _ st1) as [[d|e'] st2]; cbn in Hs, Hr |- *; congruence.
Qed.

Lemma paginate_grows {Rec} (p : Request -> nat -> Response Rec) fuel ep key off acc st :
  exists l, requests (snd (paginate p fuel ep key off acc st)) = requests st ++ l.
Proof.
  revert off acc st. induction fuel as [|f IH]; intros off acc st; [exists []; by rewrite app_nil_r|].
  cbn [paginate]. unfold mbind, M_bind, catch, mret, M_ret.
  destruct (getWithRetries_first p maxRetries 0 (PageRequest ep pageLimit off) st) as [rest Hr].
  destruct (getWithRetries p maxRetries 0 (PageRequest ep pageLimit off) st) as [[b|e] st1]; cbn in Hr |- *.
  - destruct (_ && _); cbn [snd requests].
    + destruct (IH (off + pageLimit)%Z (acc ++ pageRaces b) st1) as [l Hl].
      rewrite Hl, Hr, <- app_assoc. eauto.
    + rewrite Hr. eauto.
  - pose proof (onPageError_state key e st1) as Hs.
    destruct (onPageError key e st1) as [[d|e'] st2]; cbn in Hs |- *; subst st2; rewrite Hr; eauto.
Qed.

Lemma paginate_first {Rec} (p : Request -> nat -> Response Rec) f ep key off acc st :
  exists rest, requests (snd (paginate p (S f) ep key off acc st)) =
               requests st ++ PageRequest ep pageLimit off :: rest.
Proof.
  cbn [paginate]. unfold mbind, M_bind, catch, mret, M_ret.
  destruct (getWithRetries_first p maxRetries 0 (PageRequest ep pageLimit off) st) as [rest Hr].
  destruct (getWithRetries p maxRetries 0 (PageRequest ep pageLimit off) st) as [[b|e] st1]; cbn in Hr |- *.
  - destruct (_ && _); cbn [snd requests].
    + destruct (paginate_grows p f ep key (off + pageLimit)%Z (acc ++ pageRaces b) st1) as [l Hl].
      rewrite Hl, Hr, <- app_assoc. eauto.
    + rewrite Hr. eauto.
  - pose proof (onPageError_state key e st1) as Hs.
    destruct (onPageError key e st1) as [[d|e'] st2]; cbn in Hs |- *; subst st2; rewrite Hr; eauto.
Qed.

(** The iteration of the loop whose page request fails with a 429 after
    the retries. *)
Lemma paginate_rate_limited {Rec} (p : Request -> nat -> Response Rec) f ep off acc st st' e :
  getWithRetries p maxRetries 0 (PageRequest ep pageLimit off) st = (Throw e, st') ->
  isRateLimitAxiosError e = true ->
  paginate p (S f) ep (paginatedKey ep) off acc st =
  (match cachedRecs st (paginatedKey ep) with
   | Some d => Ret (Returned d)
   | None => Throw RateLimitError
   end, st').
Proof.
  intros Hg He.
  pose proof (getWithRetries_cache p maxRetries 0 (PageRequest ep pageLimit off) st) as Hc.
  rewrite Hg in Hc. cbn in Hc.
  cbn [paginate]. unfold mbind, M_bind, catch. rewrite Hg.
  pose proof (onPageError_state (paginatedKey ep) e st') as Hs.
  pose proof (onPageError_rate (paginatedKey ep) e st' He) as Hr.
  unfold cachedRecs in *. rewrite Hc in Hr.
  destruct (onPageError (paginatedKey ep) e st') as [o st2]; cbn in Hs, Hr |- *; subst.
  destruct (asRecs _); reflexivity.
Qed.

(** C6. A call of [fetchAllPaginated] that returns a value received pages
    at offsets 0, 100, 200, ... (each after one to three attempts, the
    retries of a 429), requested in that order; either the loop ended at the
    first page after which [offset + 100 < total] with a non-empty page no
    longer holds, and the value is the concatenation of the pages in order,
    or a page request failed with a 429 after the retries and the value is
    the collection cached under the key.  For a provider reporting
    [total = 150] that serves the 150 records in two pages of at most 100,
    the call issues exactly 2 page requests and returns the 150 records. *)
Theorem fetchAllPaginated_loop {Rec} :
  (forall (p : Request -> nat -> Response Rec) fuel ep st d st',
     fetchAllPaginated p fuel ep st = (Ret d, st') ->
     exists pages : list (Body Rec * nat),
       (forall k bm, pages !! k = Some bm ->
          1 <= snd bm <= 3 /\
          exists i, p (PageRequest ep 100 (Z.of_nat (100 * k))) i = Ok (fst bm)) /\
       ((pages <> [] /\
         d = concat (map (fun bm => pageRaces (fst bm)) pages) /\
         requests st' = requests st ++ attemptRequests ep 0 pages /\
         (forall k bm, pages !! k = Some bm ->
            ((Z.of_nat (100 * (k + 1)) < pageTotal (fst bm))%Z /\ pageRaces (fst bm) <> [])
            <-> S k < length pages)) \/
        (cachedRecs st (paginatedKey ep) = Some d /\
         requests st' = requests st ++ attemptRequests ep 0 pages ++
                        repeat (PageRequest ep 100 (Z.of_nat (100 * length pages))) 3 /\
         (forall k bm, pages !! k = Some bm ->
            (Z.of_nat (100 * (k + 1)) < pageTotal (fst bm))%Z /\ pageRaces (fst bm) <> [])))) /\
  (forall (p : Request -> nat -> Response Rec) fuel ep st r0 r1,
     2 <= fuel ->
     (forall i, p (PageRequest ep 100 0) i = Ok (BPage (Some r0) (Some 150%Z))) ->
     (forall i, p (PageRequest ep 100 100) i = Ok (BPage (Some r1) (Some 150%Z))) ->
     length r0 <= 100 -> length r1 <= 100 -> length r0 + length r1 = 150 ->
     fst (fetchAllPaginated p fuel ep st) = Ret (r0 ++ r1) /\
     length (r0 ++ r1) = 150 /\
     requests (snd (fetchAllPaginated p fuel ep st)) =
       requests st ++ [PageRequest ep 100 0; PageRequest ep 100 100]).
Proof.
  split.
  - intros p fuel ep st d st'. unfold fetchAllPaginated, mbind, M_bind, getState.
    change 0%Z with (Z.of_nat (100 * 0)).
    destruct (paginate p fuel ep (paginatedKey ep) (Z.of_nat (100 * 0)) [] st)
      as [[[all|d']|e] st1] eqn:Hp; [| |discriminate].
    + unfold setCache, mret, M_ret. intros H. injection H as <- <-.
      destruct (paginate_run p fuel ep _ 0 [] st _ st1 Hp) as (pages & Hpg & _ & Hne & Hd & Hr & Hc).
      exists pages. split; [exact Hpg|]. left. split; [exact Hne|]. split; [exact Hd|].
      split; [exact Hr|exact Hc].
    + unfold mret, M_ret. intros H. injection H as <- <-.
      destruct (paginate_run p fuel ep _ 0 [] st _ st1 Hp) as (pages & Hpg & _ & Hd & Hr & Hc).
      exists pages. split; [exact Hpg|]. right. split; [exact Hd|].
      split; [exact Hr|exact Hc].
  - intros p fuel ep st r0 r1 Hf H0 H1 L0 L1 L.
    destruct fuel as [|[|f]]; [lia|lia|].
    destruct r0 as [|x r0']; [cbn in L; lia|].
    assert (Hrun : exists st', fetchAllPaginated p (S (S f)) ep st = (Ret ((x :: r0') ++ r1), st') /\
                     requests st' = requests st ++ [PageRequest ep 100 0; PageRequest ep 100 100]).
    { eexists. split.
      - unfold fetchAllPaginated, mbind, M_bind, getState. cbn [paginate].
        unfold mbind, M_bind, catch, mret, M_ret.
        erewrite getWithRetries_ok by apply H0.
        unfold pageRaces at 1 2, pageTotal at 1.
        change ((0 + pageLimit <? 150)%Z && (0 <? length (x :: r0'))) with true.
        cbv beta iota zeta.
        erewrite getWithRetries_ok by apply H1.
        cbn. change ((0 + pageLimit + pageLimit <? 150)%Z) with false. cbn.
        reflexivity.
      - cbn. rewrite <- app_assoc. reflexivity. }
    destruct Hrun as (st' & -> & Hr). cbn [fst snd].
    split; [reflexivity|]. split; [rewrite length_app; exact L|exact Hr].
Qed.

Lemma fetchAllPaginated_loop_witness :
  (exists pages : list (Body nat * nat),
     attemptRequests season_endpoint 0 pages =
       [PageRequest season_endpoint 100 0; PageRequest season_endpoint 100 0;
        PageRequest season_endpoint 100 100] /\
     concat (map (fun bm => pageRaces (fst bm)) pages) = seq 0 150) /\
  (fst (fetchAllPaginated (slice_provider (seq 0 150)) 2 season_endpoint client_start) =
     Ret (seq 0 100 ++ seq 100 50) /\
   length (seq 0 100 ++ seq 100 50) = 150 /\
   requests (snd (fetchAllPaginated (slice_provider (seq 0 150)) 2 season_endpoint client_start)) =
     requests client_start ++ [PageRequest season_endpoint 100 0; PageRequest season_endpoint 100 100]).
Proof.
  assert (Hrun : fetchAllPaginated (flaky_provider (seq 0 150)) 2 season_endpoint client_start =
                 (Ret (seq 0 150),
                  snd (fetchAllPaginated (flaky_provider (seq 0 150)) 2 season_endpoint client_start)))
    by (vm_compute; reflexivity).
  assert (Hreq : requests (snd (fetchAllPaginated (flaky_provider (seq 0 150)) 2 season_endpoint client_start)) =
                 [PageRequest season_endpoint 100 0; PageRequest season_endpoint 100 0;
                  PageRequest season_endpoint 100 100])
    by (vm_compute; reflexivity).
  split.
  - destruct (proj1 fetchAllPaginated_loop _ _ _ _ _ _ Hrun)
      as (pages & _ & [(_ & Hd & Hr & _) | (Hc & _)]); [|vm_compute in Hc; discriminate].
    exists pages. rewrite Hreq in Hr. split; [exact (eq_sym Hr)|exact (eq_sym Hd)].
  - apply (proj2 fetchAllPaginated_loop); [lia| | |vm_compute; lia..];
      intros i; vm_compute; reflexivity.
Defined.

(** By contrast, [getConstructorStandings] answers from an entry that has
    not expired without any request. *)
Lemma getConstructorStandings_fresh_hit {Rec} (p : Request -> nat -> Response Rec)
    s (st : ClientState Rec) x d :
  cache st !! standingsKey s = Some (mkCacheRecord x (CacheStandings d)) ->
  (now st <= x)%Z ->
  getConstructorStandings p s st = (Ret d, st).
Proof.
  intros Hk Hx. unfold getConstructorStandings, mbind, M_bind, getState, getCache.
  rewrite Hk. cbn [expiresAt data asStandings].
  destruct (Z.ltb_spec x (now st)); [lia|]. reflexivity.
Qed.

(** C5 (code bug). Whatever the cache holds, [fetchAllPaginated] sends the
    request of the first page: even with an entry for its key that has not
    expired, the call issues [PageRequest endpoint 100 0]. *)
Theorem fetchAllPaginated_ignores_fresh_cache {Rec} (p : Request -> nat -> Response Rec)
    fuel ep (st : ClientState Rec) r :
  0 < fuel ->
  cache st !! paginatedKey ep = Some r ->
  (now st <= expiresAt r)%Z ->
  exists rest, requests (snd (fetchAllPaginated p fuel ep st)) =
               requests st ++ PageRequest ep 100 0 :: rest.
Proof.
  intros Hf _ _. destruct fuel as [|f]; [lia|].
  unfold fetchAllPaginated, mbind, M_bind, getState.
  destruct (paginate_first p f ep (paginatedKey ep) 0 [] st) as [rest Hr].
  destruct (paginate p (S f) ep (paginatedKey ep) 0 [] st) as [[[all|d]|e] st1]; cbn in Hr |- *;
    unfold setCache, mret, M_ret; cbn; rewrite Hr; eauto.
Qed.

(** C4. When a page request of [fetchAllPaginated] fails with a 429 after
    the retries, the loop returns the entry cached under the key, fresh or
    stale, and throws [RateLimitError] when there is none; in particular a
    429 on the first page makes [fetchAllPaginated] return the cached
    collection or throw [RateLimitError]; [fetchAllPaginated] only throws
    [RateLimitError] when no collection is cached under its key; and
    [getConstructorStandings] whose request fails with a 429 after the
    retries returns the cached standings, fresh or stale, or throws
    [RateLimitError] when there are none. *)
Theorem rate_limit_cache_fallback {Rec} (p : Request -> nat -> Response Rec) :
  (forall f ep off acc st st' e,
     getWithRetries p maxRetries 0 (PageRequest ep pageLimit off) st = (Throw e, st') ->
     isRateLimitAxiosError e = true ->
     paginate p (S f) ep (paginatedKey ep) off acc st =
     (match cachedRecs st (paginatedKey ep) with
      | Some d => Ret (Returned d)
      | None => Throw RateLimitError
      end, st')) /\
  (forall f ep st st' e,
     getWithRetries p maxRetries 0 (PageRequest ep pageLimit 0) st = (Throw e, st') ->
     isRateLimitAxiosError e = true ->
     fst (fetchAllPaginated p (S f) ep st) =
     match cachedRecs st (paginatedKey ep) with
     | Some d => Ret d
     | None => Throw RateLimitError
     end) /\
  (forall fuel ep st,
     fst (fetchAllPaginated p fuel ep st) = Throw RateLimitError ->
     cachedRecs st (paginatedKey ep) = None) /\
  (forall s st st' e,
     getWithRetries p maxRetries 0 (PlainRequest (standingsEndpoint s)) st = (Throw e, st') ->
     isRateLimitAxiosError e = true ->
     fst (getConstructorStandings p s st) =
     match cachedStandings st (standingsKey s) with
     | Some d => Ret d
     | None => Throw RateLimitError
     end).
Proof.
  split; [|split; [|split]].
  - intros f ep off acc st st' e Hg He. exact (paginate_rate_limited p f ep off acc st st' e Hg He).
  - intros f ep st st' e Hg He.
    unfold fetchAllPaginated, mbind, M_bind, getState.
    rewrite (paginate_rate_limited p f ep 0 [] st st' e Hg He).
    destruct (cachedRecs st (paginatedKey ep)); reflexivity.
  - intros fuel ep st. unfold fetchAllPaginated, mbind, M_bind, getState.
    pose proof (paginate_rate_limit_error p fuel ep (paginatedKey ep) 0 [] st) as H.
    destruct (paginate p fuel ep (paginatedKey ep) 0 [] st) as [[[all|d]|e] st1]; cbn in H |- *;
      unfold setCache, mret, M_ret; cbn; [discriminate|discriminate|]. intros He. apply H. congruence.
  - intros s st st' e Hg He.
    pose proof (getWithRetries_cache p maxRetries 0 (PlainRequest (standingsEndpoint s)) st) as Hc.
    rewrite Hg in Hc. cbn in Hc.
    unfold getConstructorStandings, cachedStandings, mbind, M_bind, getState, getCache, catch.
    destruct (cache st !! standingsKey s) as [[x [d|d]]|] eqn:Hk;
      cbn [expiresAt data asStandings fmap option_fmap option_map];
      try destruct (x <? now st)%Z; cbn [asStandings];
      try reflexivity;
      rewrite Hg; rewrite He; unfold getStaleCache; cbn [fst];
      rewrite Hc, Hk; reflexivity.
Qed.

(** A second fetch of the 2021 results one second after the first: the
    cached entry is fresh (it expires after 24 hours), yet the first page is
    requested again. *)
Example fetchAllPaginated_second_call :
  getCache (paginatedKey season_endpoint) after_first_call = (Ret (Some (CacheRecs (seq 0 30))), after_first_call) /\
  requests (snd (fetchAllPaginated (slice_provider (seq 0 30)) 5 season_endpoint after_first_call)) =
    [PageRequest season_endpoint 100 0; PageRequest season_endpoint 100 0].
Proof. split; vm_compute; reflexivity. Qed.

Lemma fetchAllPaginated_ignores_fresh_cache_witness :
  exists rest,
    requests (snd (fetchAllPaginated (slice_provider (seq 0 30)) 5 season_endpoint after_first_call)) =
    requests after_first_call ++ PageRequest season_endpoint 100 0 :: rest.
Proof.
  apply (fetchAllPaginated_ignores_fresh_cache (slice_provider (seq 0 30)) 5 season_endpoint
           after_first_call (mkCacheRecord 86400000 (CacheRecs (seq 0 30)))).
  - lia.
  - vm_compute. reflexivity.
  - vm_compute. discriminate.
Defined.

Lemma rate_limit_cache_fallback_witness :
  fst (fetchAllPaginated rate_limited_provider 1 season_endpoint stale_state) = Ret [1; 2; 3] /\
  fst (getConstructorStandings rate_limited_provider "2021" stale_state) = Ret [rb_standing].
Proof.
  split.
  - erewrite (proj1 (proj2 (rate_limit_cache_fallback rate_limited_provider)) 0);
      [reflexivity|reflexivity|reflexivity].
  - erewrite (proj2 (proj2 (proj2 (rate_limit_cache_fallback rate_limited_provider))));
      [reflexivity|reflexivity|reflexivity].
Defined.

(* ================================================================= *)
(** ** Further properties of the store, the client and [cycleDriver] *)

Lemma find_findIndex {A} (p : A -> bool) (l : list A) i y :
  findIndex p l = Some i -> l !! i = Some y -> List.find p l = Some y.
Proof.
  induction l as [|z l IH] in i |- *; simpl; [discriminate|].
  destruct (p z) eqn:Hz.
  - intros [= <-] [= ->]. reflexivity.
  - destruct (findIndex p l) as [j|] eqn:Hj; simpl; [|discriminate].
    intros [= <-]. simpl. apply IH. reflexivity.
Qed.

Lemma find_findIndex_None {A} (p : A -> bool) (l : list A) :
  findIndex p l = None -> List.find p l = None.
Proof.
  induction l as [|z l IH]; simpl; [done|].
  destruct (p z); [discriminate|]. destruct (findIndex p l); [discriminate|]. auto.
Qed.

Lemma find_insert_first {A} (p : A -> bool) (l : list A) i x :
  findIndex p l = Some i -> p x = true -> List.find p (<[i := x]> l) = Some x.
Proof.
  induction l as [|z l IH] in i |- *; simpl; [discriminate|].
  destruct (p z) eqn:Hz.
  - intros [= <-] Hx. simpl. by rewrite Hx.
  - destruct (findIndex p l) as [j|] eqn:Hj; simpl; [|discriminate].
    intros [= <-] Hx. simpl. rewrite Hz. by apply IH.
Qed.

Lemma find_insert_other {A} (q : A -> bool) (l : list A) i x y :
  l !! i = Some y -> q y = false -> q x = false ->
  List.find q (<[i := x]> l) = List.find q l.
Proof.
  induction l as [|z l IH] in i |- *; [discriminate|].
  destruct i as [|i]; simpl.
  - intros [= ->] Hy Hx. by rewrite Hx, Hy.
  - intros Hi Hy Hx. destruct (q z); [done|]. by apply IH.
Qed.

Lemma find_snoc_other {A} (q : A -> bool) (l : list A) x :
  q x = false -> List.find q (l ++ [x]) = List.find q l.
Proof.
  induction l as [|z l IH]; simpl; intros Hx; [by rewrite Hx|].
  destruct (q z); [done|]. by apply IH.
Qed.

Lemma find_snoc_first {A} (q : A -> bool) (l : list A) x :
  List.find q l = None -> q x = true -> List.find q (l ++ [x]) = Some x.
Proof.
  induction l as [|z l IH]; simpl; [intros _ Hx; by rewrite Hx|].
  destruct (q z); [discriminate|]. exact IH.
Qed.

Lemma filter_completed_insert (l : list RaceRatings) i x y :
  l !! i = Some y ->
  length (List.filter completed (<[i := x]> l)) + (if completed y then 1 else 0) =
  length (List.filter completed l) + (if completed x then 1 else 0).
Proof.
  induction l as [|z l IH] in i |- *; [discriminate|].
  destruct i as [|i]; simpl.
  - intros [= ->]. destruct (completed x), (completed y); simpl; lia.
  - intros Hi. specialize (IH i Hi). destruct (completed z); simpl; lia.
Qed.

Lemma filter_completed_snoc (l : list RaceRatings) x :
  length (List.filter completed (l ++ [x])) =
  length (List.filter completed l) + (if completed x then 1 else 0).
Proof.
  induction l as [|z l IH]; simpl; [by destruct (completed x)|].
  destruct (completed z); simpl; lia.
Qed.

(** Reading back a saved race. *)
Theorem getRaceRatings_saveRaceRatings st s rnd name dt rs :
  getRaceRatings (saveRaceRatings s rnd name dt rs st) s rnd =
    Some (mkRaceRatings rnd name dt rs true) /\
  isRaceRated (saveRaceRatings s rnd name dt rs st) s rnd = true.
Proof.
  unfold isRaceRated.
  enough (E : getRaceRatings (saveRaceRatings s rnd name dt rs st) s rnd =
              Some (mkRaceRatings rnd name dt rs true)) by (rewrite E; done).
  unfold getRaceRatings, getSeasonRatings, saveRaceRatings. simpl.
  rewrite lookup_insert_eq. simpl.
  set (p := fun r => String.eqb (round r) rnd).
  set (sr := match allRatings st !! s with Some sr => sr | None => mkSeasonRatings s [] end).
  destruct (findIndex p (races sr)) as [i|] eqn:Hi.
  - apply find_insert_first; [done|]. apply String.eqb_refl.
  - apply find_snoc_first; [by apply find_findIndex_None|]. apply String.eqb_refl.
Qed.

(** [saveRaceRatings] changes no other round of the season, no other season, and no quick ratings. *)
Theorem saveRaceRatings_frame st s rnd name dt rs s' rnd' :
  (s' <> s \/ rnd' <> rnd) ->
  getRaceRatings (saveRaceRatings s rnd name dt rs st) s' rnd' = getRaceRatings st s' rnd' /\
  getQuickRatings (saveRaceRatings s rnd name dt rs st) s' = getQuickRatings st s'.
Proof.
  intros Hne. split; [|reflexivity].
  unfold getRaceRatings, getSeasonRatings, saveRaceRatings. simpl.
  destruct (decide (s' = s)) as [->|Hs].
  - destruct Hne as [Hne|Hne]; [done|].
    rewrite lookup_insert_eq. simpl.
    set (p := fun r => String.eqb (round r) rnd).
    set (q := fun r => String.eqb (round r) rnd').
    assert (Hq : q (mkRaceRatings rnd name dt rs true) = false)
      by (apply String.eqb_neq; simpl; congruence).
    destruct (allRatings st !! s) as [sr|] eqn:Hsr; simpl.
    + destruct (findIndex p (races sr)) as [i|] eqn:Hi.
      * destruct (findIndex_Some p _ _ Hi) as (y & Hy & Hpy).
        eapply find_insert_other; [exact Hy| |exact Hq].
        apply String.eqb_eq in Hpy. apply String.eqb_neq. congruence.
      * by apply find_snoc_other.
    + simpl. by rewrite Hq.
  - by rewrite lookup_insert_ne by congruence.
Qed.

(** The rated-races count grows by one when a round that was not rated is saved, and stays the same when a rated round is saved again. *)
Theorem getRatedRacesCount_saveRaceRatings st s rnd name dt rs :
  getRatedRacesCount (saveRaceRatings s rnd name dt rs st) s =
  getRatedRacesCount st s + (if isRaceRated st s rnd then 0 else 1).
Proof.
  unfold getRatedRacesCount, isRaceRated, getRaceRatings, getSeasonRatings, saveRaceRatings. simpl.
  rewrite lookup_insert_eq. simpl.
  set (p := fun r => String.eqb (round r) rnd).
  destruct (allRatings st !! s) as [sr|] eqn:Hsr; simpl.
  - destruct (findIndex p (races sr)) as [i|] eqn:Hi.
    + destruct (findIndex_Some p _ _ Hi) as (y & Hy & _).
      rewrite (find_findIndex p _ _ _ Hi Hy).
      pose proof (filter_completed_insert (races sr) i (mkRaceRatings rnd name dt rs true) y Hy).
      simpl in *. destruct (completed y); lia.
    + rewrite (find_findIndex_None p _ Hi), filter_completed_snoc. reflexivity.
  - reflexivity.
Qed.

(** After [clearSeasonRatings s] every reader of season [s] reports nothing: no race entry, a count of 0, no quick ratings and no averages. *)
Theorem clearSeasonRatings_readers st s :
  (forall rnd, getRaceRatings (clearSeasonRatings s st) s rnd = None) /\
  getRatedRacesCount (clearSeasonRatings s st) s = 0 /\
  hasQuickRatings (clearSeasonRatings s st) s = false /\
  calculateAverages (clearSeasonRatings s st) s = [].
Proof.
  unfold getRaceRatings, getRatedRacesCount, hasQuickRatings, calculateAverages,
    getSeasonRatings, getQuickRatings, clearSeasonRatings; simpl.
  rewrite !lookup_delete_eq. split; [intros; reflexivity|done].
Qed.

(** [clearAllRatings] removes the race-by-race ratings of every season but keeps the quick ratings, so a season with quick ratings still has averages afterwards. *)
Theorem clearAllRatings_keeps_quick st s :
  getSeasonRatings (clearAllRatings st) s = None /\
  getRatedRacesCount (clearAllRatings st) s = 0 /\
  getQuickRatings (clearAllRatings st) s = getQuickRatings st s /\
  (hasQuickRatings st s = true ->
   calculateAverages (clearAllRatings st) s ≡ₚ
     map fromQuick (default [] (getQuickRatings st s)) /\
   calculateAverages (clearAllRatings st) s <> []).
Proof.
  unfold getRatedRacesCount, hasQuickRatings, calculateAverages, getSeasonRatings,
    getQuickRatings, clearAllRatings; simpl. rewrite lookup_empty.
  split; [done|split; [done|split; [done|]]].
  destruct (allQuickRatings st !! s) as [q|]; [|discriminate]. simpl.
  intros Hq. rewrite Hq. split; [apply sortDesc_perm|].
  intros Hnil. pose proof (sortDesc_perm (map fromQuick q)) as Hp. rewrite Hnil in Hp.
  apply Permutation_nil in Hp. apply Nat.ltb_lt in Hq.
  apply (f_equal length) in Hp. rewrite length_map in Hp. simpl in Hp. lia.
Qed.

Lemma insertDesc_head x l :
  exists h, head (insertDesc x l) = Some h /\ (h = x \/ head l = Some h).
Proof.
  destruct l as [|y l]; simpl; [eauto|].
  destruct (Qle_bool _ _); simpl; eauto.
Qed.

Lemma insertDesc_sorted x l : Sorted avgGe l -> Sorted avgGe (insertDesc x l).
Proof.
  induction l as [|y l IH]; simpl; intros Hs; [by repeat constructor|].
  apply Sorted_inv in Hs as [Hs Hhd].
  destruct (Qle_bool (AverageRating.averageRating x) (AverageRating.averageRating y)) eqn:Hxy.
  - constructor; [by apply IH|].
    destruct (insertDesc_head x l) as (h & Hh & [->| Hl]).
    + destruct (insertDesc x l); [discriminate|]. injection Hh as ->.
      constructor. unfold avgGe. by apply Qle_bool_iff.
    + destruct (insertDesc x l) as [|h' r]; [discriminate|]. injection Hh as ->.
      destruct l as [|z l]; [discriminate|]. injection Hl as ->.
      inversion Hhd; subst. by constructor.
  - constructor; [constructor; auto|]. constructor. unfold avgGe.
    apply Qlt_le_weak, Qnot_le_lt. intros Hle. apply Qle_bool_iff in Hle. congruence.
Qed.

Lemma sortDesc_sorted_acc l acc :
  Sorted avgGe acc -> Sorted avgGe (fold_left (fun acc x => insertDesc x acc) l acc).
Proof.
  induction l as [|x l IH] in acc |- *; simpl; auto using insertDesc_sorted.
Qed.

(** The rows of [calculateAverages] are sorted by non-increasing average rating. *)
Theorem calculateAverages_sorted st s : Sorted avgGe (calculateAverages st s).
Proof.
  unfold calculateAverages, sortDesc.
  destruct (getQuickRatings st s) as [q|];
  [destruct (Nat.ltb 0 (length q))|];
  destruct (getSeasonRatings st s) as [sr|]; try destruct (Nat.ltb 0 (length (races sr)));
  try apply sortDesc_sorted_acc; constructor.
Qed.

Lemma map_modify_total k x m :
  map_has k m = true ->
  totalOf (map_modify k (pushRating x) m) = S (totalOf m).
Proof.
  unfold totalOf. induction m as [|[k' v] m IH]; simpl; [discriminate|].
  destruct (String.eqb k k'); simpl; [reflexivity|]. intros H. rewrite IH; auto.
Qed.

Lemma map_modify_snoc_fresh {V} k (f : V -> V) e m :
  map_has k m = false -> map_modify k f (m ++ [(k, e)]) = m ++ [(k, f e)].
Proof.
  induction m as [|[k' v] m IH]; simpl.
  - by rewrite String.eqb_refl.
  - destruct (String.eqb k k'); simpl; [discriminate|]. intros H. by rewrite IH.
Qed.

Lemma map_modify_Forall (P : AverageRating.t -> Prop) k f m :
  (forall v, P v -> P (f v)) ->
  Forall (fun kv => P (snd kv)) m -> Forall (fun kv => P (snd kv)) (map_modify k f m).
Proof.
  intros Hf. induction m as [|[k' v] m IH]; simpl; [auto|].
  intros Hm. inversion Hm; subst.
  destruct (String.eqb k k'); constructor; simpl in *; auto.
Qed.

Lemma pushRating_ok x v : AverageRating.totalRaces v = length (AverageRating.ratings v) ->
  rowOk (pushRating x v).
Proof. unfold rowOk; simpl. rewrite length_app. simpl. lia. Qed.

Lemma addRating_inv m r :
  Forall (fun kv => rowOk (snd kv)) m ->
  Forall (fun kv => rowOk (snd kv)) (addRating m r) /\
  totalOf (addRating m r) = S (totalOf m).
Proof.
  unfold addRating. intros Hm.
  destruct (map_has (compositeKey r) m) eqn:Hk.
  - split.
    + apply map_modify_Forall; [|done]. intros v [Hv _]. by apply pushRating_ok.
    + by apply map_modify_total.
  - rewrite map_modify_snoc_fresh by done. split.
    + apply Forall_app; split; [done|]. constructor; [|constructor].
      simpl. by apply pushRating_ok.
    + unfold totalOf. rewrite !map_app, !list_sum_app. simpl. lia.
Qed.

Lemma addRace_inv m race :
  Forall (fun kv => rowOk (snd kv)) m ->
  Forall (fun kv => rowOk (snd kv)) (addRace m race) /\
  totalOf (addRace m race) =
    totalOf m + (if completed race then length (ratings race) else 0).
Proof.
  unfold addRace. destruct (completed race); [|intros; split; [done|lia]].
  generalize (ratings race) as l. intros l.
  induction l as [|r l IH] in m |- *; simpl; intros Hm; [split; [done|lia]|].
  destruct (addRating_inv m r Hm) as [Hm' Ht].
  destruct (IH _ Hm') as [H1 H2]. split; [done|lia].
Qed.

Lemma driverTeamMap_inv_acc rs m :
  Forall (fun kv => rowOk (snd kv)) m ->
  Forall (fun kv => rowOk (snd kv)) (fold_left addRace rs m) /\
  totalOf (fold_left addRace rs m) = totalOf m + ratedCount rs.
Proof.
  unfold ratedCount.
  induction rs as [|race rs IH] in m |- *; simpl; intros Hm; [split; [done|lia]|].
  destruct (addRace_inv m race Hm) as [H1 H2].
  destruct (IH _ H1) as [H3 H4]. split; [done|]. lia.
Qed.

(** When the season has race entries, each row of [calculateAverages] counts as many races as it holds ratings (at least one), and the rows together count every rating of every completed race exactly once. *)
Theorem calculateAverages_race_rows st s sr :
  getSeasonRatings st s = Some sr -> races sr <> [] ->
  Forall rowOk (calculateAverages st s) /\
  list_sum (map AverageRating.totalRaces (calculateAverages st s)) = ratedCount (races sr).
Proof.
  intros Hs Hne. unfold calculateAverages. rewrite Hs.
  assert (Nat.ltb 0 (length (races sr)) = true) as ->
    by (destruct (races sr); [done|reflexivity]).
  destruct (driverTeamMap_inv_acc (races sr) [] (Forall_nil_2 _)) as [HF HT].
  fold (driverTeamMap (races sr)) in HF, HT.
  pose proof (sortDesc_perm (map (fun kv => finalize (snd kv)) (driverTeamMap (races sr)))) as Hp.
  split.
  - rewrite Hp. apply Forall_map. eapply Forall_impl; [exact HF|]. intros [k v]; simpl. done.
  - rewrite Hp, map_map. transitivity (totalOf (driverTeamMap (races sr))).
    + unfold totalOf. f_equal.
    + rewrite HT. reflexivity.
Qed.

(** An import whose file holds [raceRatings] for a season other than ["__proto__"] succeeds, stores that season as given, and reports as imported every race of the file, while the rated-races count afterwards is the number of completed ones. *)
Theorem importRatings_races_counted {Text} `{JsonCodec Text} (t : Text) st data s rr :
  json_parse t = Some data -> truthy_string (doc_season data) = Some s ->
  s <> "__proto__" -> doc_raceRatings data = Some rr ->
  ImportResult.success (fst (importRatings t st)) = true /\
  ImportResult.racesImported (fst (importRatings t st)) = Some (length (races rr)) /\
  getSeasonRatings (snd (importRatings t st)) s = Some rr /\
  getRatedRacesCount (snd (importRatings t st)) s = length (List.filter completed (races rr)).
Proof.
  intros Hp Hs _ Hr. unfold importRatings. rewrite Hp, Hs, Hr.
  destruct (doc_quickRatings data) as [q|]; [destruct (Nat.ltb 0 (length q))|];
  unfold getRatedRacesCount, getSeasonRatings; simpl; rewrite lookup_insert_eq; auto.
Qed.

(** A successful import keeps the stored race ratings of the season when the file has none, and keeps its quick ratings when the file's list is empty or missing. *)
Theorem importRatings_keeps_missing {Text} `{JsonCodec Text} (t : Text) st data s :
  json_parse t = Some data -> truthy_string (doc_season data) = Some s ->
  ImportResult.success (fst (importRatings t st)) = true /\
  (doc_raceRatings data = None ->
   getSeasonRatings (snd (importRatings t st)) s = getSeasonRatings st s) /\
  (default [] (doc_quickRatings data) = [] ->
   getQuickRatings (snd (importRatings t st)) s = getQuickRatings st s).
Proof.
  intros Hp Hs. unfold importRatings. rewrite Hp, Hs.
  split; [destruct (doc_raceRatings data), (doc_quickRatings data) as [[|]|]; done|].
  split.
  - intros Hr. rewrite Hr.
    destruct (doc_quickRatings data) as [[|q0 q]|]; reflexivity.
  - intros Hq. destruct (doc_quickRatings data) as [[|q0 q]|]; [| discriminate |];
    destruct (doc_raceRatings data); reflexivity.
Qed.

(** The retry loop sends its request between one and [left + 1] times, and sends nothing else. *)
Theorem getWithRetries_attempts {Rec} (p : Request -> nat -> Response Rec) l a req st :
  exists k, 1 <= k <= S l /\
    requests (snd (getWithRetries p l a req st)) = requests st ++ repeat req k.
Proof.
  revert a st. induction l as [|l IH]; intros a st; cbn [getWithRetries];
    unfold catch, api_get; destruct (p req (length (requests st))) as [b|s];
    try destruct (isRateLimitAxiosError (AxiosError s)) eqn:E; cbn [snd requests];
    try (exists 1; split; [lia|reflexivity]).
  unfold mbind, M_bind, randomJitter, sleep.
  destruct (jitter st) as [|j js]; cbn [snd requests jitter];
  match goal with |- context [getWithRetries p l ?a' req ?st'] =>
    destruct (IH a' st') as (k & Hk & Hr) end;
  exists (S k); (split; [lia|]); rewrite Hr; cbn [requests]; rewrite <- app_assoc; reflexivity.
Qed.

Lemma isRateLimitAxiosError_429 s :
  isRateLimitAxiosError (AxiosError s) = true <-> s = Some 429%Z.
Proof.
  split; [|intros ->; reflexivity].
  unfold isRateLimitAxiosError. destruct s as [z|]; [|discriminate].
  destruct z as [|q|q]; try discriminate.
  repeat (destruct q as [q|q|]; try discriminate). reflexivity.
Qed.

(** A non-429 failure of the first attempt. *)
Lemma getWithRetries_fails_once {Rec} (p : Request -> nat -> Response Rec) l a req st status :
  p req (length (requests st)) = Fail status -> status <> Some 429%Z ->
  getWithRetries p l a req st =
  (Throw (AxiosError status),
   mkClientState (now st) (currentYear st) (cache st) (requests st ++ [req]) (jitter st)).
Proof.
  intros Hp Hs. destruct l; cbn [getWithRetries]; unfold catch, api_get; rewrite Hp; [reflexivity|].
  destruct (isRateLimitAxiosError (AxiosError status)) eqn:E; [|reflexivity].
  by apply isRateLimitAxiosError_429 in E.
Qed.

(** An error other than HTTP 429 is not retried: it is rethrown after one request, with no wait. *)
Theorem getWithRetries_no_retry {Rec} (p : Request -> nat -> Response Rec) l a req st status :
  p req (length (requests st)) = Fail status -> status <> Some 429%Z ->
  getWithRetries p l a req st =
  (Throw (AxiosError status),
   mkClientState (now st) (currentYear st) (cache st) (requests st ++ [req]) (jitter st)).
Proof. apply getWithRetries_fails_once. Qed.

(** Under a persistent HTTP 429 the request is sent three times, the client waits 500 ms then 1000 ms (each plus its jitter), and the 429 error is rethrown. *)
Theorem getWithRetries_persistent_429 {Rec} (p : Request -> nat -> Response Rec) req st j0 j1 js :
  (forall n, p req n = Fail (Some 429%Z)) -> jitter st = j0 :: j1 :: js ->
  getWithRetries p maxRetries 0 req st =
  (Throw (AxiosError (Some 429%Z)),
   mkClientState (now st + (500 + j0) + (1000 + j1)) (currentYear st) (cache st)
     (requests st ++ [req; req; req]) js).
Proof.
  intros Hp Hj. unfold maxRetries. cbn [getWithRetries].
  unfold catch, api_get, mbind, M_bind, randomJitter, sleep, throw. rewrite !Hp. cbn.
  rewrite Hj, !Hp. cbn. rewrite Hp. cbn. rewrite <- !app_assoc. reflexivity.
Qed.

(** A non-429 error on the first page makes [fetchAllPaginated] rethrow it after one request, even when the cache holds an entry for the endpoint; the cache is unchanged. *)
Theorem fetchAllPaginated_server_error {Rec} (p : Request -> nat -> Response Rec) f ep st status :
  p (PageRequest ep 100 0) (length (requests st)) = Fail status -> status <> Some 429%Z ->
  fetchAllPaginated p (S f) ep st =
  (Throw (AxiosError status),
   mkClientState (now st) (currentYear st) (cache st)
     (requests st ++ [PageRequest ep 100 0]) (jitter st)).
Proof.
  intros Hp Hs. unfold fetchAllPaginated, mbind, M_bind, getState. cbn [paginate].
  unfold mbind, M_bind, catch.
  rewrite (getWithRetries_fails_once p maxRetries 0 (PageRequest ep pageLimit 0) st status Hp Hs).
  unfold onPageError.
  destruct (isRateLimitAxiosError (AxiosError status)) eqn:E;
    [by apply isRateLimitAxiosError_429 in E|reflexivity].
Qed.

(** A call of [fetchAllPaginated] that returns a value either completed the loop and stored the value under its key, expiring after the TTL of the endpoint's season (10 minutes without one) counted from the time the loop ended, after any backoff sleeps, changing no other key; or returned the collection cached under its key after a 429, leaving the cache unchanged. *)
Theorem fetchAllPaginated_caches {Rec} (p : Request -> nat -> Response Rec) fuel ep st d st' :
  fetchAllPaginated p fuel ep st = (Ret d, st') ->
  cache st' =
    <[paginatedKey ep := mkCacheRecord
        (now st' + match getEndpointSeason ep with
                   | Some s => getSeasonCacheTtlMs (currentYear st) s
                   | None => 10 * 60 * 1000
                   end)%Z (CacheRecs d)]> (cache st) \/
  (cache st' = cache st /\ cachedRecs st (paginatedKey ep) = Some d).
Proof.
  unfold fetchAllPaginated, mbind, M_bind, getState.
  change 0%Z with (Z.of_nat (100 * 0)).
  destruct (paginate p fuel ep (paginatedKey ep) (Z.of_nat (100 * 0)) [] st)
    as [[[all|d']|e] st1] eqn:Hp; [| |discriminate].
  - unfold setCache, mret, M_ret. intros H. injection H as <- <-. left.
    destruct (paginate_run p fuel ep _ 0 [] st _ st1 Hp) as (pages & _ & Hc & _).
    cbn [cache now]. rewrite Hc. reflexivity.
  - unfold mret, M_ret. intros H. injection H as <- <-. right.
    destruct (paginate_run p fuel ep _ 0 [] st _ st1 Hp) as (pages & _ & Hc & Hd & _).
    split; [exact Hc|exact Hd].
Qed.

(** Without a fresh cache entry, a non-429 error makes [getConstructorStandings] return an empty list after one request, ignoring any stale entry and leaving the cache unchanged. *)
Theorem getConstructorStandings_server_error {Rec} (p : Request -> nat -> Response Rec) s
    (st : ClientState Rec) status :
  (forall r, cache st !! standingsKey s = Some r -> (expiresAt r < now st)%Z) ->
  p (PlainRequest (standingsEndpoint s)) (length (requests st)) = Fail status ->
  status <> Some 429%Z ->
  getConstructorStandings p s st =
  (Ret [], mkClientState (now st) (currentYear st) (cache st)
             (requests st ++ [PlainRequest (standingsEndpoint s)]) (jitter st)).
Proof.
  intros Hc Hp Hs. unfold getConstructorStandings, mbind, M_bind, getState, getCache.
  assert (Hmiss : asStandings (match cache st !! standingsKey s with
                   | Some r => if (expiresAt r <? now st)%Z then None else Some (data r)
                   | None => None end) = None).
  { destruct (cache st !! standingsKey s) as [r|] eqn:Hk; [|reflexivity].
    specialize (Hc r eq_refl). apply Z.ltb_lt in Hc. by rewrite Hc. }
  rewrite Hmiss. unfold catch.
  rewrite (getWithRetries_fails_once p maxRetries 0 _ st status Hp Hs).
  destruct (isRateLimitAxiosError (AxiosError status)) eqn:E;
    [by apply isRateLimitAxiosError_429 in E|reflexivity].
Qed.

(** Without a fresh cache entry, a successful response is normalized, cached with the season's TTL and returned; a response without a standings list is cached as an empty list. *)
Theorem getConstructorStandings_fetched {Rec} (p : Request -> nat -> Response Rec) s
    (st : ClientState Rec) b :
  (forall r, cache st !! standingsKey s = Some r -> (expiresAt r < now st)%Z) ->
  p (PlainRequest (standingsEndpoint s)) (length (requests st)) = Ok b ->
  let normalized := map normalizeStanding
        (match b with BStandings (Some l) => l | _ => [] end) in
  getConstructorStandings p s st =
  (Ret normalized,
   mkClientState (now st) (currentYear st)
     (<[standingsKey s := mkCacheRecord (now st + getSeasonCacheTtlMs (currentYear st) s)
                            (CacheStandings normalized)]> (cache st))
     (requests st ++ [PlainRequest (standingsEndpoint s)]) (jitter st)).
Proof.
  intros Hc Hp. unfold getConstructorStandings, mbind, M_bind, getState, getCache.
  assert (Hmiss : asStandings (match cache st !! standingsKey s with
                   | Some r => if (expiresAt r <? now st)%Z then None else Some (data r)
                   | None => None end) = None).
  { destruct (cache st !! standingsKey s) as [r|] eqn:Hk; [|reflexivity].
    specialize (Hc r eq_refl). apply Z.ltb_lt in Hc. by rewrite Hc. }
  rewrite Hmiss. unfold catch.
  rewrite (getWithRetries_ok p maxRetries 0 _ st b Hp). reflexivity.
Qed.

Lemma insertByRound_perm x l : insertByRound x l ≡ₚ x :: l.
Proof.
  induction l as [|y l IH]; simpl; [done|].
  destruct (_ <=? _)%Z; [|done]. rewrite IH. apply perm_swap.
Qed.

Lemma sortByRound_perm l : sortByRound l ≡ₚ l.
Proof.
  unfold sortByRound. rewrite <- (app_nil_r l) at 2. generalize (@nil RaceRatings) as acc.
  induction l as [|x l IH]; intros acc; simpl; [done|].
  rewrite IH, insertByRound_perm. symmetry. apply Permutation_middle.
Qed.

Lemma insertRowDesc_perm x l : insertRowDesc x l ≡ₚ x :: l.
Proof.
  induction l as [|y l IH]; simpl; [done|].
  destruct (Qle_bool _ _); [|done]. rewrite IH. apply perm_swap.
Qed.

Lemma sortRowsDesc_perm l : sortRowsDesc l ≡ₚ l.
Proof.
  unfold sortRowsDesc. rewrite <- (app_nil_r l) at 2. generalize (@nil DriverRow.t) as acc.
  induction l as [|x l IH]; intros acc; simpl; [done|].
  rewrite IH, insertRowDesc_perm. symmetry. apply Permutation_middle.
Qed.

Lemma insertRowDesc_sorted x l : Sorted rowGe l -> Sorted rowGe (insertRowDesc x l).
Proof.
  induction l as [|y l IH]; simpl; intros Hs; [by repeat constructor|].
  apply Sorted_inv in Hs as [Hs Hhd].
  destruct (Qle_bool (DriverRow.totalAverage x) (DriverRow.totalAverage y)) eqn:Hxy.
  - constructor; [by apply IH|].
    destruct l as [|z l]; simpl.
    + constructor. unfold rowGe. by apply Qle_bool_iff.
    + destruct (Qle_bool (DriverRow.totalAverage x) (DriverRow.totalAverage z)).
      * inversion Hhd; subst. by constructor.
      * constructor. unfold rowGe. by apply Qle_bool_iff.
  - constructor; [constructor; auto|]. constructor. unfold rowGe.
    apply Qlt_le_weak, Qnot_le_lt. intros Hle. apply Qle_bool_iff in Hle. congruence.
Qed.

Lemma sortRowsDesc_sorted l : Sorted rowGe (sortRowsDesc l).
Proof.
  unfold sortRowsDesc. assert (Hacc : Sorted rowGe (@nil DriverRow.t)) by constructor.
  revert Hacc. generalize (@nil DriverRow.t) as acc.
  induction l as [|x l IH]; intros acc Hacc; simpl; auto using insertRowDesc_sorted.
Qed.

Lemma map_has_In {V} k (m : list (string * V)) : map_has k m = true <-> In k (map fst m).
Proof.
  induction m as [|[k' v] m IH]; simpl; [split; [discriminate|done]|].
  rewrite orb_true_iff, String.eqb_eq, IH. split; intros [H|H]; auto.
Qed.

Lemma map_modify_keys {V} k (f : V -> V) m : map fst (map_modify k f m) = map fst m.
Proof.
  induction m as [|[k' v] m IH]; simpl; [done|].
  destruct (String.eqb k k'); simpl; by rewrite ?IH.
Qed.

Lemma map_modify_Forall_kv {V} (P : string -> V -> Prop) k f m :
  (forall v, P k v -> P k (f v)) ->
  Forall (fun kv => P (fst kv) (snd kv)) m ->
  Forall (fun kv => P (fst kv) (snd kv)) (map_modify k f m).
Proof.
  intros Hf. induction m as [|[k' v] m IH]; simpl; [auto|].
  intros Hm. inversion Hm; subst.
  destruct (String.eqb k k') eqn:E; constructor; simpl in *; auto.
  apply String.eqb_eq in E. subst. auto.
Qed.

Lemma setRaceRating_driverId rnd x v :
  DriverRow.driverId (setRaceRating rnd x v) = DriverRow.driverId v.
Proof. unfold setRaceRating. by destruct (String.eqb rnd "__proto__"). Qed.

Lemma addRowRating_inv rnd m r :
  rowInv m ->
  rowInv (addRowRating rnd m r) /\
  (forall d, In d (map fst (addRowRating rnd m r)) <-> In d (map fst m) \/ d = driverId r).
Proof.
  intros [Hnd Hf]. unfold rowInv, addRowRating.
  destruct (map_has (driverId r) m) eqn:Hk.
  - rewrite map_modify_keys. split.
    + split; [done|]. apply (map_modify_Forall_kv
        (fun k v => DriverRow.driverId v = k)); [|done].
      intros v Hv. by rewrite setRaceRating_driverId.
    + apply map_has_In in Hk. intros d. split; [auto|]. intros [H| ->]; done.
  - rewrite map_modify_snoc_fresh by done. rewrite map_app. simpl. split.
    + split.
      * apply NoDup_app. split; [done|]. split; [|apply NoDup_singleton].
        intros x Hx1 Hx2. apply list_elem_of_singleton in Hx2. subst x.
        apply list_elem_of_In, map_has_In in Hx1. congruence.
      * apply Forall_app. split; [done|]. constructor; [|constructor].
        simpl. by rewrite setRaceRating_driverId.
    + intros d. rewrite in_app_iff. simpl. intuition.
Qed.

Lemma addRowRating_rated rnd m r :
  rnd <> "__proto__" -> rowsRated m -> rowsRated (addRowRating rnd m r).
Proof.
  intros Hrnd Hf. unfold rowsRated, addRowRating.
  assert (Hset : forall v, DriverRow.raceRatings (setRaceRating rnd (rating r) v) <> ∅).
  { intros v. unfold setRaceRating.
    destruct (String.eqb_spec rnd "__proto__"); [done|]. apply insert_non_empty. }
  destruct (map_has (driverId r) m) eqn:Hk.
  - apply (map_modify_Forall_kv (fun _ v => DriverRow.raceRatings v <> ∅)); [|done].
    intros v _. apply Hset.
  - rewrite map_modify_snoc_fresh by done.
    apply Forall_app. split; [done|]. constructor; [|constructor]. apply Hset.
Qed.

Lemma addRaceRow_inv m race :
  rowInv m ->
  rowInv (addRaceRow m race) /\
  (forall d, In d (map fst (addRaceRow m race)) <->
             In d (map fst m) \/ exists r, In r (ratings race) /\ driverId r = d).
Proof.
  unfold addRaceRow. generalize (ratings race) as l. intros l.
  induction l as [|r l IH] in m |- *; simpl; intros Hm.
  - split; [done|]. intros d. split; [auto|]. intros [H|(r & [] & _)]; done.
  - destruct (addRowRating_inv (round race) m r Hm) as [Hm' Hk'].
    destruct (IH _ Hm') as [H1 H2]. split; [done|].
    intros d. rewrite H2, Hk'. split.
    + intros [[H| ->]|(r' & Hr' & Hd)]; eauto.
    + intros [H|(r' & [<-|Hr'] & Hd)]; eauto.
Qed.

Lemma addRaceRow_rated m race :
  round race <> "__proto__" -> rowsRated m -> rowsRated (addRaceRow m race).
Proof.
  unfold addRaceRow. intros Hr. generalize (ratings race) as l. intros l.
  induction l as [|r l IH] in m |- *; simpl; intros Hm; [done|].
  apply IH. by apply addRowRating_rated.
Qed.

Lemma driverMap_inv rs m :
  rowInv m ->
  rowInv (fold_left addRaceRow rs m) /\
  (forall d, In d (map fst (fold_left addRaceRow rs m)) <->
             In d (map fst m) \/
             exists race r, In race rs /\ In r (ratings race) /\ driverId r = d).
Proof.
  induction rs as [|race rs IH] in m |- *; simpl; intros Hm.
  - split; [done|]. intros d. split; [auto|]. intros [H|(race & r & [] & _)]; done.
  - destruct (addRaceRow_inv m race Hm) as [Hm' Hk'].
    destruct (IH _ Hm') as [H1 H2]. split; [done|].
    intros d. rewrite H2, Hk'. split.
    + intros [[H|(r & Hr & Hd)]|(race' & r & Hrace & Hr & Hd)]; eauto 10.
    + intros [H|(race' & r & [<-|Hrace] & Hr & Hd)]; eauto 10.
Qed.

Lemma driverMap_rated rs m :
  Forall (fun race => round race <> "__proto__") rs ->
  rowsRated m -> rowsRated (fold_left addRaceRow rs m).
Proof.
  induction rs as [|race rs IH] in m |- *; simpl; intros Hrs Hm; [done|].
  inversion Hrs; subst. apply IH; [done|]. by apply addRaceRow_rated.
Qed.

(** [getRaceByRaceMatrix] has one column per stored race of the season, completed or not. *)
Theorem getRaceByRaceMatrix_columns st s sr :
  getSeasonRatings st s = Some sr ->
  map RaceColumn.round (fst (getRaceByRaceMatrix st s)) ≡ₚ map round (races sr).
Proof.
  intros Hs. unfold getRaceByRaceMatrix. rewrite Hs.
  destruct (Nat.eqb (length (races sr)) 0) eqn:E.
  - apply Nat.eqb_eq, length_zero_iff_nil in E. by rewrite E.
  - simpl. rewrite map_map. simpl. by rewrite sortByRound_perm.
Qed.

(** [getRaceByRaceMatrix] has exactly one row per driver id rated in any race of the season (completed or not, whatever the constructor), and the rows are sorted by non-increasing total average; when no race of the season has the round ["__proto__"], each row holds at least one race rating. *)
Theorem getRaceByRaceMatrix_rows st s sr :
  getSeasonRatings st s = Some sr ->
  let rows := snd (getRaceByRaceMatrix st s) in
  NoDup (map DriverRow.driverId rows) /\
  (forall d, In d (map DriverRow.driverId rows) <->
             exists race r, In race (races sr) /\ In r (ratings race) /\ driverId r = d) /\
  (Forall (fun race => round race <> "__proto__") (races sr) ->
   Forall (fun row => DriverRow.raceRatings row <> ∅) rows) /\
  Sorted rowGe rows.
Proof.
  intros Hs. unfold getRaceByRaceMatrix. rewrite Hs.
  destruct (Nat.eqb (length (races sr)) 0) eqn:E.
  - apply Nat.eqb_eq, length_zero_iff_nil in E. rewrite E. simpl.
    split; [constructor|]. split; [|split; [intros _|]; constructor].
    intros d. split; [done|]. intros (race & r & [] & _).
  - simpl.
    destruct (driverMap_inv (sortByRound (races sr)) [] (conj (NoDup_nil_2) (Forall_nil_2 _)))
      as [[Hnd Hf] Hk].
    set (dm := fold_left addRaceRow (sortByRound (races sr)) []) in *.
    assert (Hids : map DriverRow.driverId (sortRowsDesc (map (fun kv => finalizeRow kv.2) dm))
                   ≡ₚ map fst dm).
    { rewrite sortRowsDesc_perm, map_map. simpl. apply Permutation_refl'.
      apply map_ext_in. intros [k v] Hin. rewrite Forall_forall in Hf.
      apply list_elem_of_In in Hin. by rewrite (Hf _ Hin). }
    split; [|split; [|split]].
    + rewrite Hids. done.
    + intros d. rewrite Hids, Hk. simpl. split.
      * intros [[]|(race & r & Hrace & Hr & Hd)]. exists race, r.
        split; [|done]. by rewrite <- sortByRound_perm.
      * intros (race & r & Hrace & Hr & Hd). right. exists race, r.
        split; [|done]. by rewrite sortByRound_perm.
    + intros Hrounds. rewrite sortRowsDesc_perm. apply Forall_map.
      assert (Hr : rowsRated dm).
      { apply driverMap_rated; [|constructor].
        apply Forall_forall. intros race Hrace. rewrite sortByRound_perm in Hrace.
        by apply (proj1 (Forall_forall _ _) Hrounds). }
      exact Hr.
    + apply sortRowsDesc_sorted.
Qed.

Lemma rem_step (x n : Z) : (2 <= n)%Z -> (0 <= x < n)%Z -> (0 <= Z.rem (x + 1) n < n)%Z.
Proof. intros. split; [apply Z.rem_nonneg|apply Z.rem_bound_pos]; lia. Qed.

Lemma rem_succ_ne (x n : Z) : (2 <= n)%Z -> (0 <= x < n)%Z -> (Z.rem (x + 1) n <> x)%Z.
Proof.
  intros Hn Hx. destruct (Z.eq_dec (x + 1)%Z n) as [E|E].
  - rewrite E, Z.rem_same by lia. lia.
  - rewrite Z.rem_small by lia. lia.
Qed.

(** For a team of at least two drivers, [cycleDriver] keeps the selection valid (two different indices in range), leaves the other slot and every other team unchanged. *)
Theorem cycleDriver_valid prev teamId slot n :
  (2 <= n)%Z -> validSelection n (selection prev teamId) ->
  let next := cycleDriver prev teamId slot n in
  validSelection n (selection next teamId) /\
  (slot = Slot0 -> snd (selection next teamId) = snd (selection prev teamId)) /\
  (slot = Slot1 -> fst (selection next teamId) = fst (selection prev teamId)) /\
  (forall t, t <> teamId -> next !! t = prev !! t).
Proof.
  intros Hn (a & b & Hc & Ha & Hb & Hab) next. unfold next, cycleDriver. rewrite Hc.
  split; [|split; [|split]].
  - unfold selection at 1. rewrite lookup_insert_eq.
    unfold jsEq, jsRem, jsAdd1; simpl.
    assert (Hn0 : Z.eqb n 0 = false) by (apply Z.eqb_neq; lia). rewrite !Hn0.
    destruct slot; simpl.
    + destruct (Z.eqb (Z.rem (a + 1) n) b) eqn:E; simpl; rewrite ?Hn0.
      * apply Z.eqb_eq in E. exists (Z.rem (Z.rem (a + 1) n + 1) n), b.
        split; [done|]. rewrite E. split; [by apply rem_step|]. split; [done|].
        by apply rem_succ_ne.
      * apply Z.eqb_neq in E. exists (Z.rem (a + 1) n), b.
        split; [done|]. split; [by apply rem_step|]. split; [done|done].
    + destruct (Z.eqb (Z.rem (b + 1) n) a) eqn:E; simpl; rewrite ?Hn0.
      * apply Z.eqb_eq in E. exists a, (Z.rem (Z.rem (b + 1) n + 1) n).
        split; [done|]. rewrite E. split; [done|]. split; [by apply rem_step|].
        apply not_eq_sym, rem_succ_ne; lia.
      * apply Z.eqb_neq in E. exists a, (Z.rem (b + 1) n).
        split; [done|]. split; [done|]. split; [by apply rem_step|congruence].
  - intros ->. unfold selection at 1. rewrite lookup_insert_eq. done.
  - intros ->. unfold selection at 1. rewrite lookup_insert_eq. done.
  - intros t Ht. by rewrite lookup_insert_ne by congruence.
Qed.

(** For a team of exactly two drivers, [cycleDriver] leaves the selection as it was. *)
Theorem cycleDriver_two_drivers prev teamId slot :
  validSelection 2 (selection prev teamId) ->
  selection (cycleDriver prev teamId slot 2) teamId = selection prev teamId.
Proof.
  intros (a & b & Hc & Ha & Hb & Hab). unfold cycleDriver. rewrite Hc.
  unfold selection at 1. rewrite lookup_insert_eq.
  assert (a = 0 /\ b = 1 \/ a = 1 /\ b = 0)%Z as [[-> ->]|[-> ->]] by lia;
    destruct slot; reflexivity.
Qed.

Lemma saveRaceRatings_frame_witness :
  ("2023" <> "2024" \/ "1" <> "1") /\
  getRaceRatings (saveRaceRatings "2024" "1" "Bahrain Grand Prix" "2024-03-02"
                    [dr "max_verstappen" "red_bull" 5] two_seasons_store) "2023" "1" =
    getRaceRatings two_seasons_store "2023" "1" /\
  getQuickRatings (saveRaceRatings "2024" "1" "Bahrain Grand Prix" "2024-03-02"
                     [dr "max_verstappen" "red_bull" 5] two_seasons_store) "2023" =
    getQuickRatings two_seasons_store "2023".
Proof.
  assert (H : "2023" <> "2024" \/ "1" <> "1") by (left; discriminate).
  split; [exact H|].
  exact (saveRaceRatings_frame two_seasons_store "2024" "1" "Bahrain Grand Prix" "2024-03-02"
           [dr "max_verstappen" "red_bull" 5] "2023" "1" H).
Defined.

Lemma calculateAverages_race_rows_witness :
  getSeasonRatings mixed_store "2024" = Some mixed_season /\ races mixed_season <> [] /\
  Forall rowOk (calculateAverages mixed_store "2024") /\
  list_sum (map AverageRating.totalRaces (calculateAverages mixed_store "2024")) =
    ratedCount (races mixed_season).
Proof.
  assert (Hs : getSeasonRatings mixed_store "2024" = Some mixed_season) by (vm_compute; reflexivity).
  assert (Hn : races mixed_season <> []) by discriminate.
  split; [exact Hs|]. split; [exact Hn|].
  exact (calculateAverages_race_rows mixed_store "2024" mixed_season Hs Hn).
Defined.

Lemma importRatings_races_counted_witness :
  let t := Some (mkExportDoc (Some 1%Z) (Some "2024-06-01") (Some "2024") (Some mixed_season) None) in
  let st := mkStore ∅ ∅ in
  json_parse t = Some (mkExportDoc (Some 1%Z) (Some "2024-06-01") (Some "2024") (Some mixed_season) None) /\
  truthy_string (Some "2024") = Some "2024" /\
  "2024" <> "__proto__" /\
  ImportResult.success (fst (importRatings t st)) = true /\
  ImportResult.racesImported (fst (importRatings t st)) = Some (length (races mixed_season)) /\
  getSeasonRatings (snd (importRatings t st)) "2024" = Some mixed_season /\
  getRatedRacesCount (snd (importRatings t st)) "2024" =
    length (List.filter completed (races mixed_season)).
Proof.
  intros t st.
  assert (Hp : json_parse t = Some (mkExportDoc (Some 1%Z) (Some "2024-06-01") (Some "2024")
                                     (Some mixed_season) None)) by reflexivity.
  assert (Hs : truthy_string (Some "2024") = Some "2024") by reflexivity.
  assert (Hn : "2024" <> "__proto__") by discriminate.
  split; [exact Hp|]. split; [exact Hs|]. split; [exact Hn|].
  exact (importRatings_races_counted t st _ "2024" mixed_season Hp Hs Hn eq_refl).
Defined.

Lemma importRatings_keeps_missing_witness :
  let t := Some (mkExportDoc (Some 1%Z) (Some "2024-06-01") (Some "2024") None (Some [])) in
  json_parse t = Some (mkExportDoc (Some 1%Z) (Some "2024-06-01") (Some "2024") None (Some [])) /\
  truthy_string (Some "2024") = Some "2024" /\
  ImportResult.success (fst (importRatings t mixed_store)) = true /\
  getSeasonRatings (snd (importRatings t mixed_store)) "2024" = getSeasonRatings mixed_store "2024" /\
  getQuickRatings (snd (importRatings t mixed_store)) "2024" = getQuickRatings mixed_store "2024".
Proof.
  intros t.
  assert (Hp : json_parse t = Some (mkExportDoc (Some 1%Z) (Some "2024-06-01") (Some "2024")
                                     None (Some []))) by reflexivity.
  assert (Hs : truthy_string (Some "2024") = Some "2024") by reflexivity.
  split; [exact Hp|]. split; [exact Hs|].
  destruct (importRatings_keeps_missing t mixed_store _ "2024" Hp Hs) as (H1 & H2 & H3).
  split; [exact H1|]. split; [exact (H2 eq_refl)|exact (H3 eq_refl)].
Defined.

Lemma getRaceByRaceMatrix_columns_witness :
  getSeasonRatings mixed_store "2024" = Some mixed_season /\
  map RaceColumn.round (fst (getRaceByRaceMatrix mixed_store "2024")) ≡ₚ
    map round (races mixed_season) /\
  map RaceColumn.round (fst (getRaceByRaceMatrix mixed_store "2024")) = ["1"; "2"].
Proof.
  assert (Hs : getSeasonRatings mixed_store "2024" = Some mixed_season) by (vm_compute; reflexivity).
  split; [exact Hs|]. split; [exact (getRaceByRaceMatrix_columns mixed_store "2024" mixed_season Hs)|].
  vm_compute. reflexivity.
Defined.

Lemma getRaceByRaceMatrix_rows_witness :
  getSeasonRatings mixed_store "2024" = Some mixed_season /\
  NoDup (map DriverRow.driverId (snd (getRaceByRaceMatrix mixed_store "2024"))) /\
  Forall (fun row => DriverRow.raceRatings row <> ∅) (snd (getRaceByRaceMatrix mixed_store "2024")) /\
  In "hamilton" (map DriverRow.driverId (snd (getRaceByRaceMatrix mixed_store "2024"))).
Proof.
  assert (Hs : getSeasonRatings mixed_store "2024" = Some mixed_season) by (vm_compute; reflexivity).
  destruct (getRaceByRaceMatrix_rows mixed_store "2024" mixed_season Hs) as (Hnd & Hin & Hne & _).
  split; [exact Hs|]. split; [exact Hnd|]. split.
  { apply Hne. cbn. repeat constructor; cbn; discriminate. }
  apply Hin. exists (mkRaceRatings "1" "Bahrain Grand Prix" "2024-03-02"
       [dr "max_verstappen" "red_bull" 7; dr "hamilton" "mercedes" 8] false),
    (dr "hamilton" "mercedes" 8).
  split; [simpl; auto|]. split; [simpl; auto|reflexivity].
Defined.

Lemma getWithRetries_no_retry_witness :
  server_error_provider (PlainRequest "/2021/constructorStandings.json") 0 = Fail (Some 500%Z) /\
  Some 500%Z <> Some 429%Z /\
  getWithRetries server_error_provider maxRetries 0 (PlainRequest "/2021/constructorStandings.json")
    client_start =
  (Throw (AxiosError (Some 500%Z)),
   mkClientState 0 2025 ∅ [PlainRequest "/2021/constructorStandings.json"] []).
Proof.
  assert (Hp : server_error_provider (PlainRequest "/2021/constructorStandings.json")
                 (length (requests client_start)) = Fail (Some 500%Z)) by reflexivity.
  assert (Hs : Some 500%Z <> Some 429%Z) by discriminate.
  split; [exact Hp|]. split; [exact Hs|].
  exact (getWithRetries_no_retry server_error_provider maxRetries 0
           (PlainRequest "/2021/constructorStandings.json") client_start (Some 500%Z) Hp Hs).
Defined.

Lemma getWithRetries_persistent_429_witness :
  let st := mkClientState 0 2025 ∅ [] [100%Z; 200%Z] in
  (forall n, rate_limited_provider (PlainRequest "/2021/constructorStandings.json") n =
             Fail (Some 429%Z)) /\
  jitter st = [100%Z; 200%Z] /\
  getWithRetries rate_limited_provider maxRetries 0 (PlainRequest "/2021/constructorStandings.json") st =
  (Throw (AxiosError (Some 429%Z)),
   mkClientState 1800 2025 ∅ (repeat (PlainRequest "/2021/constructorStandings.json") 3) []).
Proof.
  intros st.
  assert (Hp : forall n, rate_limited_provider (PlainRequest "/2021/constructorStandings.json") n =
                         Fail (Some 429%Z)) by reflexivity.
  split; [exact Hp|]. split; [reflexivity|].
  exact (getWithRetries_persistent_429 rate_limited_provider
           (PlainRequest "/2021/constructorStandings.json") st 100 200 [] Hp eq_refl).
Defined.

Lemma fetchAllPaginated_server_error_witness :
  server_error_provider (PageRequest season_endpoint 100 0) 0 = Fail (Some 500%Z) /\
  Some 500%Z <> Some 429%Z /\
  fetchAllPaginated server_error_provider 1 season_endpoint stale_state =
  (Throw (AxiosError (Some 500%Z)),
   mkClientState (now stale_state) 2025 (cache stale_state)
     [PageRequest season_endpoint 100 0] []).
Proof.
  assert (Hp : server_error_provider (PageRequest season_endpoint 100 0)
                 (length (requests stale_state)) = Fail (Some 500%Z)) by reflexivity.
  assert (Hs : Some 500%Z <> Some 429%Z) by discriminate.
  split; [exact Hp|]. split; [exact Hs|].
  exact (fetchAllPaginated_server_error server_error_provider 0 season_endpoint stale_state
           (Some 500%Z) Hp Hs).
Defined.

Lemma fetchAllPaginated_caches_witness :
  fetchAllPaginated (flaky_provider (seq 0 150)) 2 season_endpoint client_start =
    (Ret (seq 0 150), snd (fetchAllPaginated (flaky_provider (seq 0 150)) 2 season_endpoint client_start)) /\
  cache (snd (fetchAllPaginated (flaky_provider (seq 0 150)) 2 season_endpoint client_start)) =
    <[paginatedKey season_endpoint := mkCacheRecord 86400500 (CacheRecs (seq 0 150))]> ∅.
Proof.
  assert (Hrun : fetchAllPaginated (flaky_provider (seq 0 150)) 2 season_endpoint client_start =
                 (Ret (seq 0 150),
                  snd (fetchAllPaginated (flaky_provider (seq 0 150)) 2 season_endpoint client_start)))
    by (vm_compute; reflexivity).
  split; [exact Hrun|].
  destruct (fetchAllPaginated_caches _ _ _ _ _ _ Hrun) as [Hc | [_ Hc]];
    [|vm_compute in Hc; discriminate].
  rewrite Hc. vm_compute. reflexivity.
Defined.

Lemma getConstructorStandings_server_error_witness :
  (forall r, cache stale_state !! standingsKey "2021" = Some r ->
             (expiresAt r < now stale_state)%Z) /\
  server_error_provider (PlainRequest (standingsEndpoint "2021")) 0 = Fail (Some 500%Z) /\
  cache stale_state !! standingsKey "2021" <> None /\
  getConstructorStandings server_error_provider "2021" stale_state =
  (Ret [], mkClientState (now stale_state) 2025 (cache stale_state)
             [PlainRequest (standingsEndpoint "2021")] []).
Proof.
  assert (Hc : forall r, cache stale_state !! standingsKey "2021" = Some r ->
                         (expiresAt r < now stale_state)%Z).
  { intros r Hr. vm_compute in Hr. injection Hr as <-. vm_compute. reflexivity. }
  assert (Hp : server_error_provider (PlainRequest (standingsEndpoint "2021"))
                 (length (requests stale_state)) = Fail (Some 500%Z)) by reflexivity.
  split; [exact Hc|]. split; [exact Hp|]. split; [vm_compute; discriminate|].
  exact (getConstructorStandings_server_error server_error_provider "2021" stale_state
           (Some 500%Z) Hc Hp ltac:(discriminate)).
Defined.

Lemma getConstructorStandings_fetched_witness :
  (forall r, cache client_start !! standingsKey "2024" = Some r ->
             (expiresAt r < now client_start)%Z) /\
  fst (getConstructorStandings standings_provider "2024" client_start) =
    Ret [ConstructorStanding.mk "mclaren" "McLaren" 1 666 6] /\
  cache (snd (getConstructorStandings standings_provider "2024" client_start)) =
    <[standingsKey "2024" := mkCacheRecord 86400000
        (CacheStandings [ConstructorStanding.mk "mclaren" "McLaren" 1 666 6])]> ∅.
Proof.
  assert (Hc : forall r, cache client_start !! standingsKey "2024" = Some r ->
                         (expiresAt r < now client_start)%Z).
  { intros r Hr. vm_compute in Hr. discriminate. }
  split; [exact Hc|].
  rewrite (getConstructorStandings_fetched standings_provider "2024" client_start _ Hc eq_refl).
  split; vm_compute; reflexivity.
Defined.

Lemma cycleDriver_valid_witness :
  (2 <= 3)%Z /\ validSelection 3 (selection ∅ "mclaren") /\
  selection (cycleDriver ∅ "mclaren" Slot0 3) "mclaren" = (Some 2%Z, Some 1%Z) /\
  validSelection 3 (selection (cycleDriver ∅ "mclaren" Slot0 3) "mclaren").
Proof.
  assert (Hn : (2 <= 3)%Z) by lia.
  assert (Hv : validSelection 3 (selection ∅ "mclaren")).
  { exists 0%Z, 1%Z. split; [reflexivity|lia]. }
  split; [exact Hn|]. split; [exact Hv|]. split; [vm_compute; reflexivity|].
  exact (proj1 (cycleDriver_valid ∅ "mclaren" Slot0 3 Hn Hv)).
Defined.

Lemma cycleDriver_two_drivers_witness :
  validSelection 2 (selection ∅ "ferrari") /\
  selection (cycleDriver ∅ "ferrari" Slot1 2) "ferrari" = (Some 0%Z, Some 1%Z).
Proof.
  assert (Hv : validSelection 2 (selection ∅ "ferrari")).
  { exists 0%Z, 1%Z. split; [reflexivity|lia]. }
  split; [exact Hv|]. exact (cycleDriver_two_drivers ∅ "ferrari" Slot1 Hv).
Defined.
